(** * voicechat.py: the voice monitoring loop and the keyword dispatcher

    A shallow embedding of [AnythingLLMVAD] (src/voicechat.py):
    - [monitor_voice]: the per-frame loop with its four local variables
      [speaking_frames], [silence_frames], [currently_recording] and
      [speech_frames];
    - [listen_for_keywords]: lower-casing, the ordered keyword scan and
      the fallback to [trigger_dictation];
    - [trigger_dictation]: the debounce against [last_trigger_time].

    Python integers are unbounded, so the counters are [Z].  Frames are
    [bytes], modelled as [list byte].  [time.time()] is modelled as a
    rational number of seconds.  Text is a [string] whose characters are
    the code points below 256, one [ascii] each; on these [str.lower]
    and [str.strip] are modelled exactly. *)

From Stdlib Require Import ZArith List Bool String Ascii QArith Lia Lqa.
From Stdlib Require Import Strings.Byte.
Import ListNotations.
Local Open Scope Z_scope.

(** ** Data *)

(** One frame as returned by [self.stream.read(320, ...)]. *)
Definition Frame := list byte.

(** The bound methods stored in [self.keywords]. *)
Inductive Action :=
| send_message | clear_chat | new_chat | scroll_up | scroll_down
| cancel_input | delete_last_word | undo_last_action | copy_response
| paste_text | stop_listening | start_listening.

(** The fields of [self] that the loop and the dispatcher read or
    write. *)
Record AnythingLLMVAD := mkVAD {
  speaking_threshold : Z;
  silence_threshold : Z;
  debounce_time : Q;
  last_trigger_time : Q;
  listening_mode : bool;
  last_speech_text : string
}.

(** [__init__]. *)
Definition init : AnythingLLMVAD :=
  {| speaking_threshold := 6;
     silence_threshold := 15;
     debounce_time := (1 # 1)%Q;
     last_trigger_time := (0 # 1)%Q;
     listening_mode := true;
     last_speech_text := EmptyString |}.

(** The locals of [monitor_voice]. *)
Record LoopState := mkLoop {
  speaking_frames : Z;
  silence_frames : Z;
  currently_recording : bool;
  speech_frames : list Frame
}.

Definition loop_init : LoopState :=
  {| speaking_frames := 0;
     silence_frames := 0;
     currently_recording := false;
     speech_frames := [] |}.

(** ** [monitor_voice]: one iteration of the [while] loop *)

(** The first [if]/[else] of the body: the counters and the buffer. *)
Definition classify_update (st : LoopState) (frame : Frame) (is_speech : bool)
  : LoopState :=
  if is_speech then
    let sp := speaking_frames st + 1 in
    let appended := speech_frames st ++ [frame] in
    {| speaking_frames := sp;
       silence_frames := 0;
       currently_recording := currently_recording st;
       speech_frames := if sp =? 1 then [frame] else appended |}
  else
    {| speaking_frames := if speaking_frames st >? 0 then 0
                          else speaking_frames st;
       silence_frames := silence_frames st + 1;
       currently_recording := currently_recording st;
       speech_frames := speech_frames st |}.

(** The condition guarding [self.process_speech_segment(speech_frames)]. *)
Definition ready (self : AnythingLLMVAD) (st : LoopState) : bool :=
  (Z.of_nat (List.length (speech_frames st)) >=? speaking_threshold self)
  && (silence_frames st >=? 5)
  && negb (currently_recording st).

(** The condition of the [elif]. *)
Definition long_silence (self : AnythingLLMVAD) (st : LoopState) : bool :=
  (silence_frames st >=? silence_threshold self) && currently_recording st.

(** The second [if]/[elif]: returns the new locals and, when the segment
    is handed to [process_speech_segment], the list of frames passed. *)
Definition dispatch_update (self : AnythingLLMVAD) (st : LoopState)
  : LoopState * option (list Frame) :=
  if ready self st then
    ({| speaking_frames := speaking_frames st;
        silence_frames := silence_frames st;
        currently_recording := true;
        speech_frames := [] |}, Some (speech_frames st))
  else if long_silence self st then
    ({| speaking_frames := speaking_frames st;
        silence_frames := silence_frames st;
        currently_recording := false;
        speech_frames := speech_frames st |}, None)
  else (st, None).

(** One iteration.  [vad] is the outcome of [self.vad.is_speech(frame,
    16000)]: [Some b] when it returns [b], [None] when it raises (the
    bare [except: continue]). *)
Definition loop_body (self : AnythingLLMVAD) (st : LoopState)
    (frame : Frame) (vad : option bool) : LoopState * option (list Frame) :=
  match vad with
  | None => (st, None)
  | Some is_speech => dispatch_update self (classify_update st frame is_speech)
  end.

(** The loop over a finite run of captured frames, each paired with the
    outcome of the classifier on it.  The second component lists the
    segments passed to [process_speech_segment], oldest first. *)
Fixpoint monitor_loop (self : AnythingLLMVAD) (st : LoopState)
    (input : list (Frame * option bool)) : LoopState * list (list Frame) :=
  match input with
  | [] => (st, [])
  | (frame, vad) :: rest =>
      let '(st1, seg) := loop_body self st frame vad in
      let '(st2, segs) := monitor_loop self st1 rest in
      (st2, match seg with Some s => s :: segs | None => segs end)
  end.

Definition monitor_voice (self : AnythingLLMVAD)
    (input : list (Frame * option bool)) : LoopState * list (list Frame) :=
  monitor_loop self loop_init input.

(** ** Strings: [str.lower] and the [in] operator *)

(** [str.lower] on one character below 256: the capitals are 65 to 90
    (A to Z) and 192 to 222 without 215 (the multiplication sign); each
    has its small letter 32 places further. *)
Definition lower_char (c : ascii) : ascii :=
  let n := nat_of_ascii c in
  if (((65 <=? n) && (n <=? 90))
      || ((192 <=? n) && (n <=? 222) && negb (n =? 215)))%nat
  then ascii_of_nat (n + 32)
  else c.

Fixpoint lower (s : string) : string :=
  match s with
  | EmptyString => EmptyString
  | String c rest => String (lower_char c) (lower rest)
  end.

(** [keyword in text]: [keyword] is a prefix of some suffix of [text]. *)
Fixpoint str_in (keyword text : string) : bool :=
  String.prefix keyword text
  || match text with
     | EmptyString => false
     | String _ rest => str_in keyword rest
     end.

(** ** The keyword table and the commands *)

(** [self.keywords]: a [dict] iterates in insertion order, so the table
    is an association list in the order of the literal. *)
Definition keywords : list (string * Action) :=
  [ ("send", send_message);
    ("clear", clear_chat);
    ("new chat", new_chat);
    ("scroll up", scroll_up);
    ("scroll down", scroll_down);
    ("cancel", cancel_input);
    ("delete", delete_last_word);
    ("undo", undo_last_action);
    ("copy", copy_response);
    ("paste", paste_text);
    ("stop listening", stop_listening);
    ("start listening", start_listening) ]%string.

(** The [for keyword, action in ...items()] loop up to its [break]: the
    first entry whose keyword occurs in [text]; [None] is
    [command_executed == False] after the loop. *)
Fixpoint scan_keywords (table : list (string * Action)) (text : string)
  : option (string * Action) :=
  match table with
  | [] => None
  | (keyword, action) :: rest =>
      if str_in keyword text then Some (keyword, action)
      else scan_keywords rest text
  end.

(** What a call [action()] does to [self].  Ten of the twelve methods
    only run an [osascript] (without [check=True]) and print; the last
    two assign [self.listening_mode]. *)
Definition call_action (self : AnythingLLMVAD) (action : Action)
  : AnythingLLMVAD :=
  match action with
  | stop_listening =>
      {| speaking_threshold := speaking_threshold self;
         silence_threshold := silence_threshold self;
         debounce_time := debounce_time self;
         last_trigger_time := last_trigger_time self;
         listening_mode := false;
         last_speech_text := last_speech_text self |}
  | start_listening =>
      {| speaking_threshold := speaking_threshold self;
         silence_threshold := silence_threshold self;
         debounce_time := debounce_time self;
         last_trigger_time := last_trigger_time self;
         listening_mode := true;
         last_speech_text := last_speech_text self |}
  | _ => self
  end.

(** ** [trigger_dictation] *)

(** How [subprocess.run([...], check=True)] ends. *)
Inductive RunResult := Completed | CalledProcessError.

(** What the dispatch thread does that can be seen from outside. *)
Inductive Event :=
| Executed (keyword : string) (action : Action)
| DictationActivated
| DictationFailed.

Definition Qlt_bool (x y : Q) : bool := negb (Qle_bool y x).

Definition set_last_trigger_time (self : AnythingLLMVAD) (t : Q)
  : AnythingLLMVAD :=
  {| speaking_threshold := speaking_threshold self;
     silence_threshold := silence_threshold self;
     debounce_time := debounce_time self;
     last_trigger_time := t;
     listening_mode := listening_mode self;
     last_speech_text := last_speech_text self |}.

(** [current_time] is the value read from [time.time()], [run] the
    outcome of the [osascript] call should it be reached. *)
Definition trigger_dictation (self : AnythingLLMVAD) (current_time : Q)
    (run : RunResult) : AnythingLLMVAD * list Event :=
  if Qlt_bool (current_time - last_trigger_time self) (debounce_time self)
  then (self, [])
  else
    match run with
    | Completed =>
        (set_last_trigger_time self current_time, [DictationActivated])
    | CalledProcessError => (self, [DictationFailed])
    end.

(** ** [listen_for_keywords] *)

(** How [self.recognizer.recognize_google(audio_data)] ends. *)
Inductive Recognition :=
| Text (transcript : string)
| UnknownValueError
| RequestError.

Definition set_last_speech_text (self : AnythingLLMVAD) (text : string)
  : AnythingLLMVAD :=
  {| speaking_threshold := speaking_threshold self;
     silence_threshold := silence_threshold self;
     debounce_time := debounce_time self;
     last_trigger_time := last_trigger_time self;
     listening_mode := listening_mode self;
     last_speech_text := text |}.

Definition listen_for_keywords (self : AnythingLLMVAD)
    (recognized : Recognition) (current_time : Q) (run : RunResult)
  : AnythingLLMVAD * list Event :=
  match recognized with
  | Text transcript =>
      let text := lower transcript in
      let self1 := set_last_speech_text self text in
      match scan_keywords keywords text with
      | Some (keyword, action) =>
          (call_action self1 action, [Executed keyword action])
      | None =>
          if listening_mode self1
          then trigger_dictation self1 current_time run
          else (self1, [])
      end
  | UnknownValueError => (self, [])
  | RequestError => (self, [])
  end.

(** ** The loop and its dispatch threads together *)

(** [process_speech_segment]: [b''.join(frames)], wrapped in an
    [AudioData], is handed to a new daemon thread running
    [listen_for_keywords]. *)
Definition process_speech_segment (frames : list Frame) : list byte :=
  List.concat frames.

(** The object, the locals of the loop, and the audio of every thread
    that was started and has not finished yet. *)
Record System := mkSystem {
  vad_self : AnythingLLMVAD;
  locals : LoopState;
  in_flight : list (list byte)
}.

(** The two things that can happen next: the loop runs one iteration,
    or the [n]-th running thread runs [listen_for_keywords] to its end
    (with the outcomes of the recogniser, the clock and [osascript]). *)
Inductive Step :=
| Iteration (frame : Frame) (vad : option bool)
| ThreadDone (n : nat) (recognized : Recognition) (current_time : Q)
    (run : RunResult).

Fixpoint remove_nth {A} (n : nat) (l : list A) : list A :=
  match n, l with
  | _, [] => []
  | O, _ :: rest => rest
  | S m, x :: rest => x :: remove_nth m rest
  end.

Definition sys_step (s : System) (step : Step) : System * list Event :=
  match step with
  | Iteration frame vad =>
      let '(st, seg) := loop_body (vad_self s) (locals s) frame vad in
      ({| vad_self := vad_self s;
          locals := st;
          in_flight := in_flight s ++
                       match seg with
                       | Some frames => [process_speech_segment frames]
                       | None => []
                       end |}, [])
  | ThreadDone n recognized current_time run =>
      match nth_error (in_flight s) n with
      | None => (s, [])
      | Some _ =>
          let '(self1, events) :=
            listen_for_keywords (vad_self s) recognized current_time run in
          ({| vad_self := self1;
              locals := locals s;
              in_flight := remove_nth n (in_flight s) |}, events)
      end
  end.

Fixpoint sys_run (s : System) (steps : list Step) : System * list Event :=
  match steps with
  | [] => (s, [])
  | step :: rest =>
      let '(s1, ev1) := sys_step s step in
      let '(s2, ev2) := sys_run s1 rest in
      (s2, ev1 ++ ev2)
  end.

Definition sys_init : System :=
  {| vad_self := init; locals := loop_init; in_flight := [] |}.

(** ** Inputs used in the examples *)

Definition speech (frame : Frame) : Frame * option bool := (frame, Some true).
Definition silence (frame : Frame) : Frame * option bool := (frame, Some false).
Definition failed (frame : Frame) : Frame * option bool := (frame, None).

(** Eleven distinct one-byte frames. *)
Definition six_frames : list Frame :=
  [[x01]; [x02]; [x03]; [x04]; [x05]; [x06]].
Definition five_frames : list Frame :=
  [[x07]; [x08]; [x09]; [x0a]; [x0b]].

(** ** The history of a run, independently of the loop *)

(** The frames the classifier answered for, in arrival order. *)
Fixpoint classified (input : list (Frame * option bool))
  : list (Frame * bool) :=
  match input with
  | [] => []
  | (frame, Some b) :: rest => (frame, b) :: classified rest
  | (_, None) :: rest => classified rest
  end.

(** On a history read latest frame first: skip the silence at the end,
    then collect the speech frames before it. *)
Fixpoint drop_silence (h : list (Frame * bool)) : list (Frame * bool) :=
  match h with
  | (_, false) :: rest => drop_silence rest
  | _ => h
  end.

Fixpoint take_speech (h : list (Frame * bool)) : list Frame :=
  match h with
  | (frame, true) :: rest => frame :: take_speech rest
  | _ => []
  end.

(** The latest maximal run of consecutive speech frames of an input. *)
Definition last_run (input : list (Frame * option bool)) : list Frame :=
  rev (take_speech (drop_silence (rev (classified input)))).

(** ** Predicates used in the statements *)

(** The invariant of the loop against the history [h] of classified
    frames, latest first. *)
Definition loop_inv (st : LoopState) (h : list (Frame * bool)) : Prop :=
  speaking_frames st = Z.of_nat (List.length (take_speech h)) /\
  0 <= silence_frames st /\
  (speech_frames st = [] \/
   speech_frames st = rev (take_speech (drop_silence h))) /\
  (take_speech h <> [] -> speech_frames st = rev (take_speech h)).

(** The classifier returned for this frame. *)
Definition answered (x : Frame * option bool) : bool :=
  match snd x with
  | Some _ => true
  | None => false
  end.

(** [keyword] is a substring of [text]. *)
Definition occurs (keyword text : string) : Prop :=
  exists a b, text = (a ++ keyword ++ b)%string.

(** The state after the command 'stop listening' was heard. *)
Definition stopped : AnythingLLMVAD :=
  fst (listen_for_keywords init (Text "Stop listening") (10 # 1)%Q Completed).

(** The iterations of the loop among the steps of a run. *)
Fixpoint iterations (steps : list Step) : list (Frame * option bool) :=
  match steps with
  | [] => []
  | Iteration frame vad :: rest => (frame, vad) :: iterations rest
  | ThreadDone _ _ _ _ :: rest => iterations rest
  end.

Definition iterate (input : list (Frame * option bool)) : list Step :=
  map (fun x => Iteration (fst x) (snd x)) input.

(** Six speech frames and five silence frames: one segment is handed to
    a thread. *)
Definition one_segment : list Step :=
  iterate (map speech six_frames ++ map silence five_frames).

(** ** Measures of a run *)

(** The number of frames of an input classified as speech. *)
Fixpoint speech_count (input : list (Frame * option bool)) : nat :=
  match input with
  | [] => O
  | (_, Some true) :: rest => S (speech_count rest)
  | _ :: rest => speech_count rest
  end.

(** The locals after [n] quiet iterations on silence frames. *)
Definition add_silence (st : LoopState) (n : nat) : LoopState :=
  {| speaking_frames := speaking_frames st;
     silence_frames := silence_frames st + Z.of_nat n;
     currently_recording := currently_recording st;
     speech_frames := speech_frames st |}.

(** The state of the loop while the segment of [one_segment] is being
    transcribed. *)
Definition busy_locals : LoopState :=
  fst (monitor_voice init (map speech six_frames ++ map silence five_frames)).

Definition sixteen_frames : list Frame :=
  five_frames ++ five_frames ++ five_frames ++ [[x0c]].

(** ** Calls of [listen_for_keywords] one after the other *)

(** The dispatch threads when they do not overlap: each call with the
    outcome of the recogniser, the value of the clock and the outcome of
    [osascript]; every event is kept with the time of its call. *)
Fixpoint listen_all (self : AnythingLLMVAD)
    (calls : list (Recognition * Q * RunResult))
  : AnythingLLMVAD * list (Q * Event) :=
  match calls with
  | [] => (self, [])
  | (recognized, current_time, run) :: rest =>
      let '(self1, events) :=
        listen_for_keywords self recognized current_time run in
      let '(self2, later) := listen_all self1 rest in
      (self2, map (pair current_time) events ++ later)
  end.

Definition is_activation (e : Q * Event) : bool :=
  match snd e with
  | DictationActivated => true
  | _ => false
  end.

(** The times at which the dictation was activated. *)
Definition activation_times (events : list (Q * Event)) : list Q :=
  map fst (filter is_activation events).

(** Each time is at least [d] after the one before it. *)
Fixpoint separated (d : Q) (times : list Q) : Prop :=
  match times with
  | [] => True
  | x :: rest =>
      match rest with
      | [] => True
      | y :: _ => (d <= y - x)%Q /\ separated d rest
      end
  end.

(** ** [find_anythingllm_window] *)

(** [str.strip()] removes white space: among the characters below 256
    these are 9 to 13, 28 to 32, 133 and 160. *)
Definition is_space (c : ascii) : bool :=
  let n := nat_of_ascii c in
  (((9 <=? n) && (n <=? 13)) || ((28 <=? n) && (n <=? 32))
   || (n =? 133) || (n =? 160))%nat.

(** The character removed by [window.strip(...)]: the double quote. *)
Definition is_quote (c : ascii) : bool := Ascii.eqb c (ascii_of_nat 34).

Fixpoint lstrip (p : ascii -> bool) (s : string) : string :=
  match s with
  | EmptyString => EmptyString
  | String c rest => if p c then lstrip p rest else s
  end.

Fixpoint rstrip (p : ascii -> bool) (s : string) : string :=
  match s with
  | EmptyString => EmptyString
  | String c rest =>
      match rstrip p rest with
      | EmptyString => if p c then EmptyString else String c EmptyString
      | kept => String c kept
      end
  end.

Definition strip (p : ascii -> bool) (s : string) : string :=
  rstrip p (lstrip p s).

(** Put [c] in front of the first piece. *)
Definition cons_char (c : ascii) (pieces : list string) : list string :=
  match pieces with
  | [] => [String c EmptyString]
  | piece :: rest => String c piece :: rest
  end.

(** [s.split(', ')]: cut at every occurrence of the separator, found
    from the left. *)
Fixpoint split_comma_space (s : string) : list string :=
  match s with
  | EmptyString => [EmptyString]
  | String c rest =>
      match rest with
      | EmptyString => cons_char c (split_comma_space rest)
      | String d rest' =>
          if (Ascii.eqb c ",") && (Ascii.eqb d " ")
          then EmptyString :: split_comma_space rest'
          else cons_char c (split_comma_space rest)
      end
  end.

(** The test of the [for window in windows] loop. *)
Definition is_anythingllm (window : string) : bool :=
  str_in "AnythingLLM" window || str_in "localhost" window.

(** How [subprocess.run(['osascript', ...], capture_output=True,
    text=True)] ends. *)
Inductive Osascript :=
| Stdout (out : string)
| OsascriptRaised.

Definition find_anythingllm_window (result : Osascript) : option string :=
  match result with
  | OsascriptRaised => None
  | Stdout out =>
      match find is_anythingllm (split_comma_space (strip is_space out)) with
      | Some window => Some (strip is_quote window)
      | None => None
      end
  end.

(** The last character of [s] exists and is not one [p] removes. *)
Fixpoint ends_kept (p : ascii -> bool) (s : string) : bool :=
  match s with
  | EmptyString => false
  | String c rest =>
      match rest with
      | EmptyString => negb (p c)
      | String _ _ => ends_kept p rest
      end
  end.

(** The first character of [s] exists and is not one [p] removes. *)
Definition starts_kept (p : ascii -> bool) (s : string) : bool :=
  match s with
  | EmptyString => false
  | String c _ => negb (p c)
  end.

(** No character of [s] is a comma or a space. *)
Fixpoint plain (s : string) : bool :=
  match s with
  | EmptyString => true
  | String c rest =>
      negb (Ascii.eqb c ",") && negb (Ascii.eqb c " ") && plain rest
  end.

(** A name between double quotes. *)
Definition quoted (s : string) : string :=
  String (ascii_of_nat 34) (s ++ String (ascii_of_nat 34) EmptyString).

(** An output of [osascript]: three window names and a final newline. *)
Definition sample_output : string :=
  ("Inbox, " ++ quoted "AnythingLLM | Chat" ++ ", localhost:3001"
   ++ String (ascii_of_nat 10) EmptyString)%string.

(** The number of frames of an input classified as silence. *)
Fixpoint silence_count (input : list (Frame * option bool)) : nat :=
  match input with
  | [] => O
  | (_, Some false) :: rest => S (silence_count rest)
  | _ :: rest => silence_count rest
  end.

(** The silence frames of the current run that a dispatch could still
    use: none once the buffer is empty. *)
Definition silence_credit (st : LoopState) : Z :=
  match speech_frames st with
  | [] => 0
  | _ :: _ => silence_frames st
  end.

(** The transcript of the latest call in which the recogniser returned a
    text. *)
Fixpoint latest_transcript (calls : list (Recognition * Q * RunResult))
  : option string :=
  match calls with
  | [] => None
  | (recognized, _, _) :: rest =>
      match latest_transcript rest with
      | Some transcript => Some transcript
      | None =>
          match recognized with
          | Text transcript => Some transcript
          | _ => None
          end
      end
  end.

(** * Properties of the loop *)

(** A speech frame never triggers the dispatch: [silence_frames] was
    just set to 0. *)
Lemma ready_after_speech : forall self st frame,
  ready self (classify_update st frame true) = false.
Proof.
  intros. unfold ready, classify_update; simpl.
  rewrite andb_false_r. reflexivity.
Qed.

Lemma speech_frames_dispatch_update : forall self st,
  (snd (dispatch_update self st) = None /\
   speech_frames (fst (dispatch_update self st)) = speech_frames st) \/
  (snd (dispatch_update self st) = Some (speech_frames st) /\
   speech_frames (fst (dispatch_update self st)) = []).
Proof.
  intros. unfold dispatch_update.
  destruct (ready self st); [right; split; reflexivity|].
  destruct (long_silence self st); left; split; reflexivity.
Qed.

Lemma counters_dispatch_update : forall self st,
  speaking_frames (fst (dispatch_update self st)) = speaking_frames st /\
  silence_frames (fst (dispatch_update self st)) = silence_frames st.
Proof.
  intros. unfold dispatch_update.
  destruct (ready self st); [split; reflexivity|].
  destruct (long_silence self st); split; reflexivity.
Qed.

(** With an empty buffer and a positive threshold nothing is ready. *)
Lemma ready_empty : forall self st,
  0 < speaking_threshold self -> speech_frames st = [] ->
  ready self st = false.
Proof.
  intros self st Hpos Hnil. unfold ready. rewrite Hnil. simpl.
  destruct (Z.geb_spec 0 (speaking_threshold self)); [lia|reflexivity].
Qed.

Lemma silent_run_empty : forall self input st,
  0 < speaking_threshold self ->
  speech_frames st = [] ->
  Forall (fun x => snd x <> Some true) input ->
  speech_frames (fst (monitor_loop self st input)) = [] /\
  snd (monitor_loop self st input) = [].
Proof.
  intros self input.
  induction input as [|[frame vad] rest IH]; intros st Hpos Hnil Hall.
  - split; [exact Hnil|reflexivity].
  - inversion Hall as [|x l Hx Hrest]; subst. simpl in Hx.
    assert (Hstep : exists st1, loop_body self st frame vad = (st1, None)
                                /\ speech_frames st1 = []).
    { destruct vad as [[|]|]; [congruence| |].
      - unfold loop_body, dispatch_update.
        rewrite ready_empty by (auto; simpl; exact Hnil).
        destruct (long_silence self (classify_update st frame false));
          eexists; (split; [reflexivity|simpl; exact Hnil]).
      - exists st. split; [reflexivity|exact Hnil]. }
    destruct Hstep as [st1 [Hbody Hnil1]].
    simpl. rewrite Hbody.
    destruct (IH st1 Hpos Hnil1 Hrest) as [H1 H2].
    destruct (monitor_loop self st1 rest) as [st2 segs]; simpl in *.
    split; assumption.
Qed.

Lemma loop_inv_init : loop_inv loop_init [].
Proof.
  unfold loop_inv; simpl. repeat split; try lia; auto.
Qed.

Lemma loop_inv_body : forall self st h frame b,
  loop_inv st h ->
  loop_inv (fst (loop_body self st frame (Some b))) ((frame, b) :: h).
Proof.
  intros self st h frame b (Hsp & Hsil & Hbuf & Hrun).
  unfold loop_body.
  destruct (counters_dispatch_update self (classify_update st frame b))
    as [Hc1 Hc2].
  destruct b.
  - (* speech: no dispatch, the buffer is the run extended by [frame] *)
    assert (Hnew : speech_frames (classify_update st frame true)
                   = rev (take_speech ((frame, true) :: h))).
    { unfold classify_update; simpl.
      destruct (take_speech h) as [|f0 run] eqn:Hts.
      - simpl in Hsp. rewrite Hsp. reflexivity.
      - rewrite Hrun by congruence.
        destruct (Z.eqb_spec (speaking_frames st + 1) 1) as [E|E];
          [|reflexivity].
        rewrite Hsp in E. simpl List.length in E. lia. }
    assert (Hd : fst (dispatch_update self (classify_update st frame true))
                 = (classify_update st frame true) \/
                 speech_frames (fst (dispatch_update self
                                       (classify_update st frame true)))
                 = speech_frames (classify_update st frame true)).
    { unfold dispatch_update. rewrite ready_after_speech.
      destruct (long_silence self (classify_update st frame true));
        [right|left]; reflexivity. }
    assert (Hb : speech_frames (fst (dispatch_update self
                                       (classify_update st frame true)))
                 = rev (take_speech ((frame, true) :: h))).
    { destruct Hd as [Hd|Hd]; [rewrite Hd|rewrite Hd]; exact Hnew. }
    unfold loop_inv. rewrite Hc1, Hc2, Hb.
    split; [|split; [|split]].
    + unfold classify_update; simpl speaking_frames.
      rewrite Hsp. simpl take_speech. simpl List.length. lia.
    + unfold classify_update; simpl. lia.
    + right. reflexivity.
    + intros _. reflexivity.
  - (* silence *)
    unfold loop_inv. rewrite Hc1, Hc2.
    split; [|split; [|split]].
    + unfold classify_update; simpl.
      destruct (Z.gtb_spec (speaking_frames st) 0); [reflexivity|lia].
    + unfold classify_update; simpl. lia.
    + destruct (speech_frames_dispatch_update self
                  (classify_update st frame false)) as [[_ E]|[_ E]];
        rewrite E; [|left; reflexivity].
      unfold classify_update; simpl. exact Hbuf.
    + simpl. congruence.
Qed.

Lemma loop_inv_run : forall self input st h,
  loop_inv st h ->
  loop_inv (fst (monitor_loop self st input)) (rev (classified input) ++ h).
Proof.
  intros self input.
  induction input as [|[frame vad] rest IH]; intros st h Hinv.
  - exact Hinv.
  - simpl.
    destruct vad as [b|].
    + pose proof (loop_inv_body self st h frame b Hinv) as Hstep.
      destruct (loop_body self st frame (Some b)) as [st1 seg].
      simpl in Hstep. specialize (IH st1 _ Hstep).
      destruct (monitor_loop self st1 rest) as [st2 segs].
      simpl in *. rewrite <- app_assoc. exact IH.
    + simpl. specialize (IH st h Hinv).
      destruct (monitor_loop self st rest) as [st2 segs].
      exact IH.
Qed.

(** The invariant holds in every state the loop reaches. *)
Lemma loop_inv_reachable : forall self input,
  loop_inv (fst (monitor_voice self input)) (rev (classified input)).
Proof.
  intros self input. unfold monitor_voice.
  pose proof (loop_inv_run self input loop_init [] loop_inv_init) as H.
  rewrite app_nil_r in H. exact H.
Qed.

Lemma monitor_loop_cons : forall self st frame vad rest,
  monitor_loop self st ((frame, vad) :: rest) =
  (fst (monitor_loop self (fst (loop_body self st frame vad)) rest),
   match snd (loop_body self st frame vad) with
   | Some s => s :: snd (monitor_loop self (fst (loop_body self st frame vad))
                           rest)
   | None => snd (monitor_loop self (fst (loop_body self st frame vad)) rest)
   end).
Proof.
  intros. simpl.
  destruct (loop_body self st frame vad) as [st1 seg]. simpl.
  destruct (monitor_loop self st1 rest) as [st2 segs].
  reflexivity.
Qed.

(** One silence frame met with [speaking_frames >= 0]. *)
Lemma silence_step : forall self st frame,
  0 <= speaking_frames st ->
  speaking_frames (fst (loop_body self st frame (Some false))) = 0 /\
  ((snd (loop_body self st frame (Some false)) = None /\
    speech_frames (fst (loop_body self st frame (Some false)))
    = speech_frames st) \/
   (snd (loop_body self st frame (Some false)) = Some (speech_frames st) /\
    speech_frames (fst (loop_body self st frame (Some false))) = [])).
Proof.
  intros self st frame Hnn. unfold loop_body.
  destruct (counters_dispatch_update self (classify_update st frame false))
    as [Hc _].
  split.
  - rewrite Hc. unfold classify_update; simpl.
    destruct (Z.gtb_spec (speaking_frames st) 0); [reflexivity|lia].
  - exact (speech_frames_dispatch_update self
             (classify_update st frame false)).
Qed.

(** A run of silence frames met with [speaking_frames = 0]: the counter
    stays 0; the buffer is untouched unless it is dispatched, after
    which it is empty. *)
Lemma silence_run : forall self more st,
  speaking_frames st = 0 ->
  speaking_frames (fst (monitor_loop self st (map silence more))) = 0 /\
  ((snd (monitor_loop self st (map silence more)) = [] /\
    speech_frames (fst (monitor_loop self st (map silence more)))
    = speech_frames st) \/
   (hd_error (snd (monitor_loop self st (map silence more)))
    = Some (speech_frames st) /\
    speech_frames (fst (monitor_loop self st (map silence more))) = [])).
Proof.
  intros self more.
  induction more as [|frame rest IH]; intros st Hsp.
  - simpl. split; [exact Hsp|]. left. split; reflexivity.
  - cbn [map]. unfold silence at 1 3 5 7 9. rewrite monitor_loop_cons.
    cbn [fst snd].
    destruct (silence_step self st frame) as [Hsp1 Hd]; [lia|].
    destruct (loop_body self st frame (Some false)) as [st1 seg].
    cbn [fst snd] in *.
    destruct (IH st1 Hsp1) as [Hfin Hcases].
    split; [exact Hfin|].
    destruct Hd as [[Hseg Hb]|[Hseg Hb]]; subst seg.
    + rewrite Hb in Hcases. exact Hcases.
    + right. split; [reflexivity|].
      destruct Hcases as [[_ E]|[_ E]]; congruence.
Qed.

(** ** C7 *)

(** C7.  A stream in which no frame is classified as speech (every
    frame is classified as silence, or the classifier fails on it; the
    empty stream included) never reaches [process_speech_segment]: the
    list of dispatched segments of [monitor_voice] is empty. *)
Theorem all_silence_never_ready : forall input,
  Forall (fun x => snd x <> Some true) input ->
  snd (monitor_voice init input) = [].
Proof.
  intros input Hall. unfold monitor_voice.
  apply (silent_run_empty init input loop_init); simpl; auto. lia.
Qed.

Lemma all_silence_never_ready_witness :
  snd (monitor_voice init (map silence (six_frames ++ five_frames))) = [].
Proof.
  apply (all_silence_never_ready (map silence (six_frames ++ five_frames))).
  repeat constructor; simpl; discriminate.
Defined.

(** ** C8 *)

(** C8.  After any number of iterations from the initial locals, for any
    thresholds: [speaking_frames >= 0], [silence_frames >= 0], and the
    buffer holds at most one segment: it is empty, or it is exactly the
    latest maximal run of consecutive speech frames of the input. *)
Theorem counters_nonneg_one_open_segment : forall self input,
  0 <= speaking_frames (fst (monitor_voice self input)) /\
  0 <= silence_frames (fst (monitor_voice self input)) /\
  (speech_frames (fst (monitor_voice self input)) = [] \/
   speech_frames (fst (monitor_voice self input)) = last_run input).
Proof.
  intros self input. unfold last_run.
  destruct (loop_inv_reachable self input) as (Hsp & Hsil & Hbuf & _).
  split; [rewrite Hsp; lia|]. split; assumption.
Qed.

(** ** C2 *)

(** C2, as the code has it.  A frame classified as silence is not
    appended: after the iteration the buffer is what it was, or empty
    when the segment was dispatched.  A frame classified as speech
    starts the buffer anew when [speaking_frames] was 0 and is appended
    otherwise.  From the initial state, six speech frames followed by
    five silence frames dispatch exactly one segment, made of the six
    speech frames. *)
Theorem only_speech_frames_buffered : forall self st frame sp si,
  List.length sp = 6%nat -> List.length si = 5%nat ->
  (speech_frames (fst (loop_body self st frame (Some false)))
   = speech_frames st \/
   speech_frames (fst (loop_body self st frame (Some false))) = []) /\
  speech_frames (fst (loop_body self st frame (Some true)))
  = (if speaking_frames st =? 0 then [frame]
     else speech_frames st ++ [frame]) /\
  snd (monitor_voice init (map speech sp ++ map silence si)) = [sp].
Proof.
  intros self st frame sp si Hsp Hsi. split; [|split].
  - unfold loop_body.
    destruct (speech_frames_dispatch_update self
                (classify_update st frame false)) as [[_ E]|[_ E]];
      rewrite E; [left|right]; reflexivity.
  - unfold loop_body, dispatch_update. rewrite ready_after_speech.
    assert (E : speech_frames (classify_update st frame true)
                = if speaking_frames st =? 0 then [frame]
                  else speech_frames st ++ [frame]).
    { unfold classify_update; simpl.
      destruct (Z.eqb_spec (speaking_frames st + 1) 1),
               (Z.eqb_spec (speaking_frames st) 0); try reflexivity; lia. }
    destruct (long_silence self (classify_update st frame true));
      simpl; exact E.
  - destruct sp as [|f1 [|f2 [|f3 [|f4 [|f5 [|f6 [|]]]]]]]; try discriminate.
    destruct si as [|g1 [|g2 [|g3 [|g4 [|g5 [|]]]]]]; try discriminate.
    reflexivity.
Qed.

Lemma only_speech_frames_buffered_witness :
  snd (monitor_voice init (map speech six_frames ++ map silence five_frames))
  = [six_frames].
Proof.
  apply (only_speech_frames_buffered init loop_init [x00]
           six_frames five_frames); reflexivity.
Defined.

(** C2 as stated fails: six speech frames and five silence frames do not
    produce a segment of eleven frames. *)
Lemma eleven_frame_segment_counterexample :
  ~ exists segment,
      snd (monitor_voice init
             (map speech six_frames ++ map silence five_frames))
      = [segment] /\ List.length segment = 11%nat.
Proof.
  intros [segment [Hseg Hlen]].
  vm_compute in Hseg. inversion Hseg; subst. discriminate Hlen.
Qed.

(** ** C3 *)

(** C3, as the code has it.  From any state the loop can reach, a run of
    silence frames sets [speaking_frames] to 0 and leaves the buffer as
    it was unless the buffer is dispatched (and is then empty); the
    first speech frame after the run replaces the buffer by that frame
    alone. *)
Theorem silence_keeps_buffer_speech_restarts_it :
  forall self input frame more resumed,
  let st := fst (monitor_voice self input) in
  let r := monitor_loop self st (silence frame :: map silence more) in
  speaking_frames (fst r) = 0 /\
  ((snd r = [] /\ speech_frames (fst r) = speech_frames st) \/
   (hd_error (snd r) = Some (speech_frames st) /\
    speech_frames (fst r) = [])) /\
  speech_frames (fst (loop_body self (fst r) resumed (Some true)))
  = [resumed].
Proof.
  intros self input frame more resumed st r.
  assert (Hnn : 0 <= speaking_frames st).
  { destruct (loop_inv_reachable self input) as (Hsp & _).
    subst st. rewrite Hsp. lia. }
  assert (Hr : speaking_frames (fst r) = 0 /\
    ((snd r = [] /\ speech_frames (fst r) = speech_frames st) \/
     (hd_error (snd r) = Some (speech_frames st) /\
      speech_frames (fst r) = []))).
  { subst r. unfold silence at 1 3 5 7 9. rewrite monitor_loop_cons.
    cbn [fst snd].
    destruct (silence_step self st frame Hnn) as [Hsp1 Hd].
    destruct (loop_body self st frame (Some false)) as [st1 seg].
    cbn [fst snd] in *.
    destruct (silence_run self more st1 Hsp1) as [Hfin Hcases].
    split; [exact Hfin|].
    destruct Hd as [[Hseg Hb]|[Hseg Hb]]; subst seg.
    - rewrite Hb in Hcases. exact Hcases.
    - right. split; [reflexivity|].
      destruct Hcases as [[_ E]|[_ E]]; congruence. }
  destruct Hr as [Hr1 Hr2]. split; [exact Hr1|]. split; [exact Hr2|].
  unfold loop_body, dispatch_update. rewrite ready_after_speech.
  assert (E : speech_frames (classify_update (fst r) resumed true)
              = [resumed]).
  { unfold classify_update; simpl. rewrite Hr1. reflexivity. }
  destruct (long_silence self (classify_update (fst r) resumed true));
    simpl; exact E.
Qed.

(** C3 as stated fails: with one speech frame, one silence frame and one
    more speech frame nothing is dispatched, and the frame buffered
    before the silence is no longer in the buffer afterwards. *)
Lemma resumed_speech_counterexample :
  snd (monitor_voice init [speech [x01]; silence [x02]; speech [x03]]) = [] /\
  In [x01] (speech_frames (fst (monitor_voice init [speech [x01]]))) /\
  In [x01] (speech_frames
              (fst (monitor_voice init [speech [x01]; silence [x02]]))) /\
  ~ In [x01]
      (speech_frames
         (fst (monitor_voice init
                 [speech [x01]; silence [x02]; speech [x03]]))).
Proof.
  split; [reflexivity|]. split; [left; reflexivity|].
  split; [left; reflexivity|].
  vm_compute. intros [H|[]]. discriminate H.
Qed.

(** ** C4 *)

(** C4, as the code has it.  When the classifier raises, the iteration
    ends at once ([continue]): the locals are unchanged and nothing is
    dispatched; the counters are not touched and neither condition is
    evaluated.  A whole run is the run on the input with those frames
    removed. *)
Theorem classifier_error_skips_frame : forall self st frame input,
  loop_body self st frame None = (st, None) /\
  monitor_loop self st input = monitor_loop self st (filter answered input).
Proof.
  intros self st frame input. split; [reflexivity|].
  revert st.
  induction input as [|[f vad] rest IH]; intros st; [reflexivity|].
  destruct vad as [b|].
  - cbn [filter answered snd]. rewrite !monitor_loop_cons, IH. reflexivity.
  - cbn [filter answered snd]. rewrite monitor_loop_cons.
    cbn [loop_body fst snd].
    rewrite <- IH. destruct (monitor_loop self st rest); reflexivity.
Qed.

(** C4 as stated fails: after six speech frames and four silence frames,
    a frame on which the classifier raises dispatches nothing and leaves
    [silence_frames] at 4, while a frame classified as silence makes it
    5 and dispatches the segment. *)
Lemma classifier_error_counterexample :
  let st := fst (monitor_voice init
                   (map speech six_frames ++
                    map silence [[x07]; [x08]; [x09]; [x0a]])) in
  loop_body init st [x0b] None <> loop_body init st [x0b] (Some false) /\
  silence_frames (fst (loop_body init st [x0b] None)) = 4 /\
  snd (loop_body init st [x0b] None) = None /\
  silence_frames (fst (loop_body init st [x0b] (Some false))) = 5 /\
  snd (loop_body init st [x0b] (Some false)) = Some six_frames.
Proof.
  cbv zeta. split; [|repeat split; reflexivity].
  intro H. vm_compute in H. discriminate H.
Qed.

(** * Properties of the dispatcher *)

Lemma prefix_spec : forall keyword text,
  String.prefix keyword text = true <->
  exists b, text = (keyword ++ b)%string.
Proof.
  induction keyword as [|c keyword IH]; intros text.
  - destruct text; simpl; split; intros; try reflexivity; eexists; reflexivity.
  - destruct text as [|d text]; simpl.
    + split; [discriminate|]. intros [b Hb]. discriminate Hb.
    + destruct (ascii_dec c d) as [E|E].
      * subst d. rewrite IH. split; intros [b Hb]; exists b.
        -- rewrite Hb. reflexivity.
        -- inversion Hb. reflexivity.
      * split; [discriminate|]. intros [b Hb]. inversion Hb. congruence.
Qed.

(** The [in] operator of the code is the substring relation. *)
Lemma str_in_spec : forall text keyword,
  str_in keyword text = true <-> occurs keyword text.
Proof.
  unfold occurs.
  induction text as [|c text IH]; intros keyword.
  - cbn [str_in]. rewrite orb_false_r, prefix_spec. split.
    + intros [b Hb]. exists EmptyString, b. exact Hb.
    + intros [a [b Hab]]. destruct a; [exists b; exact Hab|discriminate Hab].
  - cbn [str_in]. rewrite orb_true_iff, prefix_spec, IH. split.
    + intros [[b Hb]|[a [b Hab]]].
      * exists EmptyString, b. exact Hb.
      * exists (String c a), b. simpl. rewrite Hab. reflexivity.
    + intros [a [b Hab]]. destruct a as [|d a].
      * left. exists b. exact Hab.
      * right. exists a, b. simpl in Hab. inversion Hab. reflexivity.
Qed.

Lemma str_in_false : forall text keyword,
  str_in keyword text = false <-> ~ occurs keyword text.
Proof.
  intros. rewrite <- str_in_spec. destruct (str_in keyword text); split;
    congruence.
Qed.

(** The scan returns the first entry, in the order of the table, whose
    keyword occurs in the text. *)
Lemma scan_keywords_some : forall table text keyword action,
  scan_keywords table text = Some (keyword, action) <->
  exists before after,
    table = before ++ (keyword, action) :: after /\
    occurs keyword text /\
    (forall k a, In (k, a) before -> ~ occurs k text).
Proof.
  induction table as [|[k0 a0] table IH]; intros text keyword action.
  - simpl. split; [discriminate|].
    intros (before & after & H & _). destruct before; discriminate H.
  - simpl. destruct (str_in k0 text) eqn:Hin.
    + split.
      * intros H. inversion H; subst. exists [], table.
        split; [reflexivity|]. split; [apply str_in_spec; exact Hin|].
        intros k a [].
      * intros (before & after & H & Hocc & Hnone).
        destruct before as [|[k1 a1] before]; simpl in H.
        -- inversion H. reflexivity.
        -- inversion H; subst. exfalso.
           apply (Hnone k1 a1); [left; reflexivity|].
           apply str_in_spec. exact Hin.
    + rewrite IH. split.
      * intros (before & after & H & Hocc & Hnone).
        exists ((k0, a0) :: before), after. subst table.
        split; [reflexivity|]. split; [exact Hocc|].
        intros k a [E|Hk]; [inversion E; subst; apply str_in_false; exact Hin|].
        exact (Hnone k a Hk).
      * intros (before & after & H & Hocc & Hnone).
        destruct before as [|[k1 a1] before]; simpl in H.
        -- inversion H; subst. apply str_in_spec in Hocc. congruence.
        -- inversion H; subst. exists before, after.
           split; [reflexivity|]. split; [exact Hocc|].
           intros k a Hk. apply (Hnone k a). right. exact Hk.
Qed.

Lemma scan_keywords_none : forall table text,
  scan_keywords table text = None <->
  (forall k a, In (k, a) table -> ~ occurs k text).
Proof.
  induction table as [|[k0 a0] table IH]; intros text.
  - simpl. split; [intros _ k a []|reflexivity].
  - simpl. destruct (str_in k0 text) eqn:Hin.
    + split; [discriminate|]. intros H. exfalso.
      apply (H k0 a0); [left; reflexivity|apply str_in_spec; exact Hin].
    + rewrite IH. split.
      * intros H k a [E|Hk];
          [inversion E; subst; apply str_in_false; exact Hin|].
        exact (H k a Hk).
      * intros H k a Hk. apply (H k a). right. exact Hk.
Qed.

Lemma Qlt_bool_iff : forall x y, Qlt_bool x y = true <-> (x < y)%Q.
Proof.
  intros x y. unfold Qlt_bool. rewrite negb_true_iff.
  split.
  - intros H. apply Qnot_le_lt. intros Hle.
    apply Qle_bool_iff in Hle. congruence.
  - intros H. destruct (Qle_bool y x) eqn:E; [|reflexivity].
    apply Qle_bool_iff in E. exfalso. exact (Qlt_not_le _ _ H E).
Qed.

Lemma Qlt_bool_false : forall x y, Qlt_bool x y = false <-> (y <= x)%Q.
Proof.
  intros x y. unfold Qlt_bool. rewrite negb_false_iff. apply Qle_bool_iff.
Qed.

(** The three ways [trigger_dictation] can go. *)
Lemma trigger_dictation_debounced : forall self current_time run,
  (current_time - last_trigger_time self < debounce_time self)%Q ->
  trigger_dictation self current_time run = (self, []).
Proof.
  intros self current_time run H. unfold trigger_dictation.
  apply Qlt_bool_iff in H. rewrite H. reflexivity.
Qed.

Lemma trigger_dictation_fires : forall self current_time run,
  (debounce_time self <= current_time - last_trigger_time self)%Q ->
  trigger_dictation self current_time run =
  match run with
  | Completed =>
      (set_last_trigger_time self current_time, [DictationActivated])
  | CalledProcessError => (self, [DictationFailed])
  end.
Proof.
  intros self current_time run H. unfold trigger_dictation.
  apply Qlt_bool_false in H. rewrite H. reflexivity.
Qed.

Lemma trigger_dictation_attempted : forall self current_time run,
  snd (trigger_dictation self current_time run) <> [] ->
  (debounce_time self <= current_time - last_trigger_time self)%Q.
Proof.
  intros self current_time run H. unfold trigger_dictation in H.
  destruct (Qlt_bool (current_time - last_trigger_time self)
              (debounce_time self)) eqn:E.
  - simpl in H. congruence.
  - apply Qlt_bool_false. exact E.
Qed.

(** ** C5 *)

(** C5, as the code has it.  [listen_for_keywords] lower-cases the
    transcript and scans the table in insertion order.  Either some
    keyword occurs in the text, and then exactly the action of the first
    such keyword in table order is executed, whatever else occurs in the
    text and wherever; or no keyword occurs, and then the fallback
    [trigger_dictation] is called when [listening_mode] is on and
    nothing at all is done when it is off. *)
Theorem first_keyword_in_table_order_wins :
  forall self transcript current_time run,
  let text := lower transcript in
  let self1 := set_last_speech_text self text in
  let r := listen_for_keywords self (Text transcript) current_time run in
  (exists before keyword action after,
     keywords = before ++ (keyword, action) :: after /\
     occurs keyword text /\
     (forall k a, In (k, a) before -> ~ occurs k text) /\
     r = (call_action self1 action, [Executed keyword action])) \/
  ((forall k a, In (k, a) keywords -> ~ occurs k text) /\
   r = if listening_mode self
       then trigger_dictation self1 current_time run
       else (self1, [])).
Proof.
  intros self transcript current_time run text self1 r.
  subst r. unfold listen_for_keywords. fold text. fold self1.
  destruct (scan_keywords keywords text) as [[keyword action]|] eqn:Hscan.
  - left. apply scan_keywords_some in Hscan.
    destruct Hscan as (before & after & Htab & Hocc & Hnone).
    exists before, keyword, action, after. repeat split; assumption.
  - right. split; [apply scan_keywords_none; exact Hscan|reflexivity].
Qed.

(** The scenario of the specification, and priority by table order:
    'send' comes before 'clear' in the table and wins although it comes
    later in the text. *)
Example please_send_this :
  snd (listen_for_keywords init (Text "please send this") (100 # 1)%Q Completed)
  = [Executed "send" send_message].
Proof. reflexivity. Qed.

Example table_order_beats_text_order :
  snd (listen_for_keywords init (Text "Clear it and SEND") (100 # 1)%Q
         Completed)
  = [Executed "send" send_message].
Proof. reflexivity. Qed.

(** C5 as stated fails: with [listening_mode] off and a text in which no
    keyword occurs, the fallback is not selected.  Nothing happens,
    although [trigger_dictation] would have activated the dictation had
    it been called. *)
Lemma fallback_needs_listening_mode_counterexample :
  listening_mode stopped = false /\
  scan_keywords keywords (lower "hello there") = None /\
  snd (listen_for_keywords stopped (Text "hello there") (100 # 1)%Q Completed)
  = [] /\
  snd (trigger_dictation stopped (100 # 1)%Q Completed)
  = [DictationActivated].
Proof. repeat split; reflexivity. Qed.

(** ** C9 *)

(** C9.  With [listening_mode] off, a text in which a keyword occurs
    still executes the command of the first such keyword, exactly as it
    does with [listening_mode] on; when that command is 'start
    listening' the mode is on afterwards; a text in which no keyword
    occurs does nothing: [trigger_dictation] is not called. *)
Theorem keyword_path_ignores_listening_mode :
  forall self transcript current_time run,
  listening_mode self = false ->
  let text := lower transcript in
  let r := listen_for_keywords self (Text transcript) current_time run in
  (forall keyword action,
     scan_keywords keywords text = Some (keyword, action) ->
     r = (call_action (set_last_speech_text self text) action,
          [Executed keyword action]) /\
     snd (listen_for_keywords (call_action self start_listening)
            (Text transcript) current_time run) = snd r) /\
  (forall keyword,
     scan_keywords keywords text = Some (keyword, start_listening) ->
     listening_mode (fst r) = true) /\
  (scan_keywords keywords text = None ->
   r = (set_last_speech_text self text, [])).
Proof.
  intros self transcript current_time run Hoff text r.
  subst r. unfold listen_for_keywords. fold text.
  split; [|split].
  - intros keyword action Hscan. rewrite Hscan. split; reflexivity.
  - intros keyword Hscan. rewrite Hscan. reflexivity.
  - intros Hscan. rewrite Hscan. simpl. rewrite Hoff. reflexivity.
Qed.

Lemma keyword_path_ignores_listening_mode_witness :
  listening_mode stopped = false /\
  listening_mode
    (fst (listen_for_keywords stopped (Text "Start listening") (11 # 1)%Q
            Completed)) = true /\
  listen_for_keywords stopped (Text "hello there") (11 # 1)%Q Completed
  = (set_last_speech_text stopped "hello there", []).
Proof.
  split; [reflexivity|]. split.
  - apply (keyword_path_ignores_listening_mode stopped "Start listening"
             (11 # 1)%Q Completed eq_refl)
      with (keyword := "start listening"%string).
    reflexivity.
  - apply (keyword_path_ignores_listening_mode stopped "hello there"
             (11 # 1)%Q Completed eq_refl).
    reflexivity.
Defined.

(** ** C6 *)

(** C6, as the code has it.  The debounce is against
    [last_trigger_time], the time of the last successful activation, not
    against the previous text.  A text in which no keyword occurs, heard
    at [current_time] with [listening_mode] on, does nothing and leaves
    [last_trigger_time] alone when [current_time - last_trigger_time <
    debounce_time]; otherwise it runs the activation, and
    [last_trigger_time] becomes [current_time] when the activation
    succeeds.  Hence for two such texts heard one after the other at
    [t1] and [t2], the first of which activates the dictation: the
    second does nothing and [last_trigger_time] stays [t1] when [t2 - t1
    < debounce_time], and it runs the activation as well when [t2 - t1
    >= debounce_time].  A text whose first keyword in table order is
    [keyword] executes that command whatever the clock and
    [last_trigger_time] are, and leaves [last_trigger_time] alone. *)
Theorem fallback_debounced_against_last_activation :
  (forall self transcript current_time run,
     listening_mode self = true ->
     (forall k a, In (k, a) keywords -> ~ occurs k (lower transcript)) ->
     ((current_time - last_trigger_time self < debounce_time self)%Q ->
      listen_for_keywords self (Text transcript) current_time run
      = (set_last_speech_text self (lower transcript), [])) /\
     ((debounce_time self <= current_time - last_trigger_time self)%Q ->
      listen_for_keywords self (Text transcript) current_time run
      = match run with
        | Completed =>
            (set_last_trigger_time
               (set_last_speech_text self (lower transcript)) current_time,
             [DictationActivated])
        | CalledProcessError =>
            (set_last_speech_text self (lower transcript), [DictationFailed])
        end)) /\
  (forall self transcript1 transcript2 t1 t2 run2,
     listening_mode self = true ->
     (forall k a, In (k, a) keywords -> ~ occurs k (lower transcript1)) ->
     (forall k a, In (k, a) keywords -> ~ occurs k (lower transcript2)) ->
     snd (listen_for_keywords self (Text transcript1) t1 Completed)
     = [DictationActivated] ->
     last_trigger_time
       (fst (listen_for_keywords self (Text transcript1) t1 Completed)) = t1 /\
     ((t2 - t1 < debounce_time self)%Q ->
      snd (listen_for_keywords
             (fst (listen_for_keywords self (Text transcript1) t1 Completed))
             (Text transcript2) t2 run2) = [] /\
      last_trigger_time
        (fst (listen_for_keywords
                (fst (listen_for_keywords self (Text transcript1) t1
                        Completed))
                (Text transcript2) t2 run2)) = t1) /\
     ((debounce_time self <= t2 - t1)%Q ->
      snd (listen_for_keywords
             (fst (listen_for_keywords self (Text transcript1) t1 Completed))
             (Text transcript2) t2 run2)
      = [match run2 with
         | Completed => DictationActivated
         | CalledProcessError => DictationFailed
         end])) /\
  (forall self transcript before keyword action after current_time run,
     keywords = before ++ (keyword, action) :: after ->
     occurs keyword (lower transcript) ->
     (forall k a, In (k, a) before -> ~ occurs k (lower transcript)) ->
     snd (listen_for_keywords self (Text transcript) current_time run)
     = [Executed keyword action] /\
     last_trigger_time
       (fst (listen_for_keywords self (Text transcript) current_time run))
     = last_trigger_time self).
Proof.
  assert (Hone : forall self transcript current_time run,
    listening_mode self = true ->
    (forall k a, In (k, a) keywords -> ~ occurs k (lower transcript)) ->
    listen_for_keywords self (Text transcript) current_time run
    = trigger_dictation (set_last_speech_text self (lower transcript))
        current_time run).
  { intros self transcript current_time run Hon Hnone.
    apply scan_keywords_none in Hnone.
    unfold listen_for_keywords. rewrite Hnone.
    cbn [listening_mode set_last_speech_text]. rewrite Hon. reflexivity. }
  split; [|split].
  - intros self transcript current_time run Hon Hnone.
    rewrite (Hone _ _ _ _ Hon Hnone). split; intros H.
    + apply trigger_dictation_debounced. exact H.
    + apply trigger_dictation_fires. exact H.
  - intros self transcript1 transcript2 t1 t2 run2 Hon Hn1 Hn2 Hfired.
    rewrite (Hone _ _ _ _ Hon Hn1) in *.
    assert (Hge : (debounce_time self <= t1 - last_trigger_time self)%Q).
    { apply (trigger_dictation_attempted
               (set_last_speech_text self (lower transcript1)) t1 Completed).
      rewrite Hfired. discriminate. }
    rewrite (trigger_dictation_fires
               (set_last_speech_text self (lower transcript1)) t1 Completed)
      by exact Hge.
    cbn [fst].
    rewrite (Hone _ transcript2 t2 run2) by (try exact Hon; exact Hn2).
    split; [reflexivity|]. split; intros H.
    + rewrite trigger_dictation_debounced by exact H.
      split; reflexivity.
    + rewrite trigger_dictation_fires by exact H.
      destruct run2; reflexivity.
  - intros self transcript before keyword action after current_time run
           Htab Hocc Hnone.
    assert (Hscan : scan_keywords keywords (lower transcript)
                    = Some (keyword, action)).
    { apply scan_keywords_some. exists before, after.
      split; [exact Htab|]. split; assumption. }
    unfold listen_for_keywords. rewrite Hscan.
    split; [reflexivity|]. destruct action; reflexivity.
Qed.

Lemma fallback_debounced_against_last_activation_witness :
  snd (listen_for_keywords
         (fst (listen_for_keywords init (Text "hello there") (100 # 1)%Q
                 Completed))
         (Text "hello again") (1003 # 10)%Q Completed) = [] /\
  snd (listen_for_keywords
         (fst (listen_for_keywords init (Text "hello there") (100 # 1)%Q
                 Completed))
         (Text "hello again") (1012 # 10)%Q Completed)
  = [DictationActivated].
Proof.
  assert (Hnone : forall transcript,
            scan_keywords keywords (lower transcript) = None ->
            forall k a, In (k, a) keywords -> ~ occurs k (lower transcript)).
  { intros transcript H. apply scan_keywords_none. exact H. }
  destruct fallback_debounced_against_last_activation as (_ & Htwo & _).
  split.
  - apply (Htwo init "hello there"%string "hello again"%string
             (100 # 1)%Q (1003 # 10)%Q
             Completed eq_refl (Hnone "hello there"%string eq_refl)
             (Hnone "hello again"%string eq_refl) eq_refl).
    reflexivity.
  - apply (Htwo init "hello there"%string "hello again"%string
             (100 # 1)%Q (1012 # 10)%Q
             Completed eq_refl (Hnone "hello there"%string eq_refl)
             (Hnone "hello again"%string eq_refl) eq_refl).
    discriminate.
Defined.

(** C6 as stated fails: the dictation was activated at 100.  Of two
    texts without keyword heard at 100.9 and 101.0, a tenth of a second
    apart, the first does nothing and the second activates the
    dictation; of two heard at 100.5 and 101.6, more than
    [debounce_time] apart, the first does nothing as well. *)
Lemma debounce_between_texts_counterexample :
  let fired :=
    fst (listen_for_keywords init (Text "hello there") (100 # 1)%Q Completed) in
  let first := listen_for_keywords fired (Text "hello again") (1009 # 10)%Q
                 Completed in
  let second := listen_for_keywords (fst first) (Text "and again")
                  (1010 # 10)%Q Completed in
  let early := listen_for_keywords fired (Text "hello again") (1005 # 10)%Q
                 Completed in
  let late := listen_for_keywords (fst early) (Text "and again")
                (1016 # 10)%Q Completed in
  ((1010 # 10) - (1009 # 10) < debounce_time init)%Q /\
  snd first = [] /\ snd second = [DictationActivated] /\
  (debounce_time init <= (1016 # 10) - (1005 # 10))%Q /\
  snd early = [] /\ snd late = [DictationActivated].
Proof.
  cbv zeta. split; [reflexivity|]. split; [reflexivity|].
  split; [reflexivity|]. split; [discriminate|]. split; reflexivity.
Qed.

(** ** C10 *)

(** C10.  When the activation is attempted at [t1] and the subprocess
    raises, [self] is as before, [last_trigger_time] included; a retry
    at any later time [t2], however close to [t1], is not debounced: it
    runs the activation again. *)
Theorem failed_activation_keeps_last_trigger_time :
  forall self t1 t2 run2,
  snd (trigger_dictation self t1 CalledProcessError) = [DictationFailed] ->
  (t1 <= t2)%Q ->
  fst (trigger_dictation self t1 CalledProcessError) = self /\
  last_trigger_time (fst (trigger_dictation self t1 CalledProcessError))
  = last_trigger_time self /\
  trigger_dictation (fst (trigger_dictation self t1 CalledProcessError))
    t2 run2
  = match run2 with
    | Completed => (set_last_trigger_time self t2, [DictationActivated])
    | CalledProcessError => (self, [DictationFailed])
    end.
Proof.
  intros self t1 t2 run2 Hfailed Hle.
  assert (Hge : (debounce_time self <= t1 - last_trigger_time self)%Q).
  { apply trigger_dictation_attempted with (run := CalledProcessError).
    rewrite Hfailed. discriminate. }
  rewrite (trigger_dictation_fires self t1 CalledProcessError Hge).
  simpl fst. split; [reflexivity|]. split; [reflexivity|].
  apply trigger_dictation_fires. lra.
Qed.

Lemma failed_activation_keeps_last_trigger_time_witness :
  last_trigger_time
    (fst (trigger_dictation init (100 # 1)%Q CalledProcessError)) = (0 # 1)%Q /\
  snd (trigger_dictation
         (fst (trigger_dictation init (100 # 1)%Q CalledProcessError))
         (1003 # 10)%Q Completed) = [DictationActivated].
Proof.
  assert (Hle : (100 # 1 <= 1003 # 10)%Q) by discriminate.
  destruct (failed_activation_keeps_last_trigger_time init (100 # 1)%Q
              (1003 # 10)%Q Completed eq_refl Hle) as (_ & H1 & H2).
  split; [exact H1|]. rewrite H2. reflexivity.
Defined.

(** * Properties of the loop together with its threads *)

(** The loop reads only the two thresholds of [self]. *)
Lemma loop_body_thresholds : forall self self' st frame vad,
  speaking_threshold self = speaking_threshold self' ->
  silence_threshold self = silence_threshold self' ->
  loop_body self st frame vad = loop_body self' st frame vad.
Proof.
  intros self self' st frame vad H1 H2.
  destruct vad as [b|]; [|reflexivity].
  unfold loop_body, dispatch_update, ready, long_silence.
  rewrite H1, H2. reflexivity.
Qed.

Lemma monitor_loop_thresholds : forall self self' input st,
  speaking_threshold self = speaking_threshold self' ->
  silence_threshold self = silence_threshold self' ->
  monitor_loop self st input = monitor_loop self' st input.
Proof.
  intros self self' input.
  induction input as [|[frame vad] rest IH]; intros st H1 H2; [reflexivity|].
  rewrite !monitor_loop_cons.
  rewrite (loop_body_thresholds self self' st frame vad H1 H2).
  rewrite (IH _ H1 H2). reflexivity.
Qed.

(** No thread changes the thresholds. *)
Lemma listen_for_keywords_thresholds : forall self recognized current_time run,
  speaking_threshold
    (fst (listen_for_keywords self recognized current_time run))
  = speaking_threshold self /\
  silence_threshold
    (fst (listen_for_keywords self recognized current_time run))
  = silence_threshold self.
Proof.
  intros self recognized current_time run.
  destruct recognized as [transcript| |]; [|split; reflexivity..].
  unfold listen_for_keywords.
  destruct (scan_keywords keywords (lower transcript)) as [[k a]|].
  - destruct a; split; reflexivity.
  - simpl listening_mode. destruct (listening_mode self);
      [|split; reflexivity].
    unfold trigger_dictation.
    destruct (Qlt_bool _ _); [split; reflexivity|].
    destruct run; split; reflexivity.
Qed.

Lemma sys_step_thread_locals : forall s n recognized current_time run,
  locals (fst (sys_step s (ThreadDone n recognized current_time run)))
  = locals s.
Proof.
  intros. simpl.
  destruct (nth_error (in_flight s) n); [|reflexivity].
  destruct (listen_for_keywords (vad_self s) recognized current_time run).
  reflexivity.
Qed.

Lemma sys_step_thresholds : forall s step,
  speaking_threshold (vad_self (fst (sys_step s step)))
  = speaking_threshold (vad_self s) /\
  silence_threshold (vad_self (fst (sys_step s step)))
  = silence_threshold (vad_self s).
Proof.
  intros s [frame vad|n recognized current_time run]; simpl.
  - destruct (loop_body (vad_self s) (locals s) frame vad).
    split; reflexivity.
  - destruct (nth_error (in_flight s) n); [|split; reflexivity].
    pose proof (listen_for_keywords_thresholds (vad_self s) recognized
                  current_time run) as H.
    destruct (listen_for_keywords (vad_self s) recognized current_time run).
    exact H.
Qed.

(** The locals of the loop after a run are those of the loop run on the
    frames alone: what the threads do, and when, leaves no trace. *)
Lemma sys_run_locals : forall steps s,
  locals (fst (sys_run s steps))
  = fst (monitor_loop (vad_self s) (locals s) (iterations steps)).
Proof.
  induction steps as [|step rest IH]; intros s; [reflexivity|].
  cbn [sys_run].
  destruct (sys_step_thresholds s step) as [H1 H2].
  pose proof (IH (fst (sys_step s step))) as IH'.
  destruct (sys_step s step) as [s1 ev1] eqn:Hstep. cbn [fst] in *.
  destruct (sys_run s1 rest) as [s2 ev2]. cbn [fst] in *.
  rewrite IH'.
  rewrite (monitor_loop_thresholds (vad_self s1) (vad_self s) _ _ H1 H2).
  destruct step as [frame vad|n recognized current_time run].
  - cbn [iterations]. rewrite monitor_loop_cons. cbn [fst].
    simpl in Hstep.
    destruct (loop_body (vad_self s) (locals s) frame vad) as [st seg].
    inversion Hstep; subst. reflexivity.
  - cbn [iterations].
    pose proof (sys_step_thread_locals s n recognized current_time run) as H.
    rewrite Hstep in H. cbn [fst] in H. rewrite H. reflexivity.
Qed.

(** ** C1 *)

(** C1, as the code has it.  [currently_recording] belongs to the loop
    alone.  A thread that finishes [listen_for_keywords], with a command,
    the fallback or an error, leaves the locals of the loop as they are,
    so after any run they are what the frames alone make them.  While
    the flag is set no iteration starts a thread, and an iteration with
    a classified frame leaves it set exactly when [silence_frames] is
    still below [silence_threshold].  While it is clear, an iteration
    sets it exactly when it starts a thread. *)
Theorem lock_cleared_by_long_silence_only :
  (forall s n recognized current_time run,
     locals (fst (sys_step s (ThreadDone n recognized current_time run)))
     = locals s) /\
  (forall steps s,
     locals (fst (sys_run s steps))
     = fst (monitor_loop (vad_self s) (locals s) (iterations steps))) /\
  (forall s frame vad,
     currently_recording (locals s) = true ->
     in_flight (fst (sys_step s (Iteration frame vad))) = in_flight s) /\
  (forall s frame b,
     currently_recording (locals s) = true ->
     currently_recording
       (locals (fst (sys_step s (Iteration frame (Some b)))))
     = negb (silence_frames (classify_update (locals s) frame b)
             >=? silence_threshold (vad_self s))) /\
  (forall s frame vad,
     currently_recording (locals s) = false ->
     (currently_recording
        (locals (fst (sys_step s (Iteration frame vad)))) = false /\
      in_flight (fst (sys_step s (Iteration frame vad))) = in_flight s) \/
     (currently_recording
        (locals (fst (sys_step s (Iteration frame vad)))) = true /\
      exists frames,
        in_flight (fst (sys_step s (Iteration frame vad)))
        = in_flight s ++ [process_speech_segment frames])).
Proof.
  split; [exact sys_step_thread_locals|].
  split; [exact sys_run_locals|].
  split; [|split].
  - intros s frame vad Hbusy. simpl.
    destruct vad as [b|]; simpl; [|apply app_nil_r].
    unfold dispatch_update, ready.
    replace (currently_recording (classify_update (locals s) frame b))
      with true by (destruct b; simpl; congruence).
    rewrite andb_false_r.
    destruct (long_silence _ _); simpl; apply app_nil_r.
  - intros s frame b Hbusy. simpl.
    unfold dispatch_update, ready, long_silence.
    replace (currently_recording (classify_update (locals s) frame b))
      with true by (destruct b; simpl; congruence).
    rewrite andb_false_r, andb_true_r.
    destruct (silence_frames (classify_update (locals s) frame b)
              >=? silence_threshold (vad_self s)) eqn:E; simpl.
    + reflexivity.
    + destruct b; simpl; exact Hbusy.
  - intros s frame vad Hfree. simpl.
    destruct vad as [b|]; simpl;
      [|left; split; [exact Hfree|apply app_nil_r]].
    unfold dispatch_update, long_silence.
    replace (currently_recording (classify_update (locals s) frame b))
      with false by (destruct b; simpl; congruence).
    rewrite andb_false_r.
    destruct (ready (vad_self s) (classify_update (locals s) frame b)); simpl.
    + right. split; [reflexivity|]. eexists. reflexivity.
    + left. split; [destruct b; simpl; exact Hfree|apply app_nil_r].
Qed.

(** C1 as stated fails: after the segment of [one_segment] is handed to
    a thread the flag is set, and it is still set when that thread has
    finished, whether the recogniser returned a text or raised. *)
Lemma lock_survives_completion_counterexample :
  currently_recording (locals (fst (sys_run sys_init one_segment))) = true /\
  List.length (in_flight (fst (sys_run sys_init one_segment))) = 1%nat /\
  in_flight
    (fst (sys_run sys_init
            (one_segment ++
             [ThreadDone 0 (Text "send") (100 # 1)%Q Completed])))
  = [] /\
  currently_recording
    (locals
       (fst (sys_run sys_init
               (one_segment ++
                [ThreadDone 0 (Text "send") (100 # 1)%Q Completed]))))
  = true /\
  in_flight
    (fst (sys_run sys_init
            (one_segment ++ [ThreadDone 0 UnknownValueError (100 # 1)%Q
                               Completed])))
  = [] /\
  currently_recording
    (locals
       (fst (sys_run sys_init
               (one_segment ++
                [ThreadDone 0 UnknownValueError (100 # 1)%Q Completed]))))
  = true.
Proof. repeat split; reflexivity. Qed.

(** The other direction: fifteen silence frames clear the flag while the
    first thread is still running, and the next segment starts a second
    one beside it. *)
Example two_threads_in_flight :
  List.length
    (in_flight
       (fst (sys_run sys_init
               (one_segment ++
                iterate (map silence (five_frames ++ five_frames)) ++
                one_segment)))) = 2%nat.
Proof. reflexivity. Qed.

(** * Further properties of the loop *)

Lemma monitor_loop_app : forall self input1 input2 st,
  monitor_loop self st (input1 ++ input2) =
  (fst (monitor_loop self (fst (monitor_loop self st input1)) input2),
   snd (monitor_loop self st input1) ++
   snd (monitor_loop self (fst (monitor_loop self st input1)) input2)).
Proof.
  intros self input1 input2.
  induction input1 as [|[frame vad] rest IH]; intros st.
  - simpl. destruct (monitor_loop self st input2); reflexivity.
  - rewrite <- app_comm_cons, !monitor_loop_cons, IH. cbn [fst snd].
    destruct (snd (loop_body self st frame vad)); reflexivity.
Qed.

(** What a dispatch tells about the iteration that made it. *)
Lemma dispatch_update_some : forall self st seg,
  snd (dispatch_update self st) = Some seg ->
  seg = speech_frames st /\ ready self st = true.
Proof.
  intros self st seg. unfold dispatch_update.
  destruct (ready self st); simpl.
  - intros H. inversion H. split; reflexivity.
  - destruct (long_silence self st); discriminate.
Qed.

Lemma loop_body_some : forall self st frame vad seg,
  snd (loop_body self st frame vad) = Some seg ->
  vad = Some false /\ seg = speech_frames st /\
  speaking_threshold self <= Z.of_nat (List.length seg) /\
  currently_recording st = false.
Proof.
  intros self st frame vad seg H.
  destruct vad as [[|]|]; cbn [loop_body snd] in H; try discriminate.
  - apply dispatch_update_some in H. destruct H as [_ H].
    rewrite ready_after_speech in H. discriminate.
  - apply dispatch_update_some in H. destruct H as [Hseg Hready].
    change (speech_frames (classify_update st frame false))
      with (speech_frames st) in Hseg.
    subst seg. split; [reflexivity|]. split; [reflexivity|].
    unfold ready in Hready. simpl in Hready.
    apply andb_true_iff in Hready. destruct Hready as [Hready Hfree].
    apply andb_true_iff in Hready. destruct Hready as [Hlen _].
    split; [lia|]. destruct (currently_recording st); [discriminate|reflexivity].
Qed.

(** One speech frame. *)
Lemma speech_step : forall self st frame,
  snd (loop_body self st frame (Some true)) = None /\
  speaking_frames (fst (loop_body self st frame (Some true)))
  = speaking_frames st + 1 /\
  silence_frames (fst (loop_body self st frame (Some true))) = 0 /\
  speech_frames (fst (loop_body self st frame (Some true)))
  = (if speaking_frames st =? 0 then [frame]
     else speech_frames st ++ [frame]) /\
  (currently_recording st = false ->
   currently_recording (fst (loop_body self st frame (Some true))) = false).
Proof.
  intros self st frame. unfold loop_body, dispatch_update.
  rewrite ready_after_speech.
  assert (E : speech_frames (classify_update st frame true)
              = if speaking_frames st =? 0 then [frame]
                else speech_frames st ++ [frame]).
  { unfold classify_update; simpl.
    destruct (Z.eqb_spec (speaking_frames st + 1) 1),
             (Z.eqb_spec (speaking_frames st) 0); try reflexivity; lia. }
  destruct (long_silence self (classify_update st frame true)) eqn:Hlong;
    cbn [fst snd]; (split; [reflexivity|]); (split; [reflexivity|]);
    (split; [reflexivity|]); (split; [exact E|]); intros Hfree.
  - reflexivity.
  - unfold classify_update; simpl. exact Hfree.
Qed.

(** ** Every dispatched segment is long enough *)

Lemma segments_reach_threshold : forall self input st,
  Forall (fun seg => speaking_threshold self <= Z.of_nat (List.length seg))
    (snd (monitor_loop self st input)).
Proof.
  intros self input.
  induction input as [|[frame vad] rest IH]; intros st.
  - constructor.
  - rewrite monitor_loop_cons. cbn [snd].
    destruct (snd (loop_body self st frame vad)) as [seg|] eqn:Hseg.
    + constructor; [|apply IH].
      apply loop_body_some in Hseg. tauto.
    + apply IH.
Qed.

(** X1.  Whatever the input and the locals the loop starts from, each
    segment handed to [process_speech_segment] has at least
    [speaking_threshold] frames. *)
Theorem dispatched_segments_reach_threshold : forall self input st,
  Forall (fun seg => speaking_threshold self <= Z.of_nat (List.length seg))
    (snd (monitor_loop self st input)).
Proof. exact segments_reach_threshold. Qed.

(** ** No frame is dispatched twice *)

Lemma dispatched_frames_bounded_from : forall self input st,
  (List.length (List.concat (snd (monitor_loop self st input)))
   + List.length (speech_frames (fst (monitor_loop self st input)))
   <= List.length (speech_frames st) + speech_count input)%nat.
Proof.
  intros self input.
  induction input as [|[frame vad] rest IH]; intros st.
  - simpl. lia.
  - rewrite monitor_loop_cons. cbn [fst snd].
    specialize (IH (fst (loop_body self st frame vad))).
    destruct vad as [[|]|].
    + destruct (speech_step self st frame) as (Hnone & _ & _ & Hbuf & _).
      rewrite Hnone. rewrite Hbuf in IH. cbn [speech_count].
      destruct (speaking_frames st =? 0).
      * cbn [List.length] in IH. lia.
      * rewrite length_app in IH. cbn [List.length] in IH. lia.
    + cbn [speech_count]. unfold loop_body in *.
      destruct (speech_frames_dispatch_update self
                  (classify_update st frame false)) as [[Hs Hb]|[Hs Hb]];
        rewrite Hs; rewrite Hb in IH.
      * exact IH.
      * cbn [List.concat List.length] in *. rewrite length_app.
        change (speech_frames (classify_update st frame false))
          with (speech_frames st).
        lia.
    + exact IH.
Qed.

Lemma threshold_times_segments : forall (threshold : Z) segs,
  Forall (fun seg : list Frame => threshold <= Z.of_nat (List.length seg))
    segs ->
  threshold * Z.of_nat (List.length segs)
  <= Z.of_nat (List.length (List.concat segs)).
Proof.
  intros threshold segs H. induction H as [|seg segs Hseg _ IH].
  - simpl. lia.
  - simpl List.length. simpl List.concat. rewrite length_app. lia.
Qed.

(** X2.  From the initial locals, the frames of all dispatched segments
    together with those still in the buffer are at most as many as the
    frames classified as speech; hence [speaking_threshold] times the
    number of dispatched segments is at most that number. *)
Theorem dispatched_frames_bounded_by_speech : forall self input,
  (List.length (List.concat (snd (monitor_voice self input)))
   + List.length (speech_frames (fst (monitor_voice self input)))
   <= speech_count input)%nat /\
  speaking_threshold self
  * Z.of_nat (List.length (snd (monitor_voice self input)))
  <= Z.of_nat (speech_count input).
Proof.
  intros self input. unfold monitor_voice.
  pose proof (dispatched_frames_bounded_from self input loop_init) as H.
  simpl in H. split; [exact H|].
  pose proof (threshold_times_segments _ _
    (segments_reach_threshold self input loop_init)) as H2.
  lia.
Qed.

(** ** Each dispatched segment is one whole run of speech *)



(** ** A run of speech, a quiet run of silence *)

Lemma speech_step_eq : forall self st frame,
  currently_recording st = false \/ 0 < silence_threshold self ->
  loop_body self st frame (Some true)
  = (classify_update st frame true, None).
Proof.
  intros self st frame H. unfold loop_body, dispatch_update.
  rewrite ready_after_speech.
  replace (long_silence self (classify_update st frame true)) with false;
    [reflexivity|].
  unfold long_silence. simpl. destruct H as [H|H].
  - rewrite H. rewrite andb_false_r. reflexivity.
  - destruct (Z.geb_spec 0 (silence_threshold self)); [lia|reflexivity].
Qed.

Lemma speech_run : forall self sp st,
  currently_recording st = false \/ 0 < silence_threshold self ->
  speaking_frames st = 0 ->
  sp <> [] ->
  monitor_loop self st (map speech sp)
  = ({| speaking_frames := Z.of_nat (List.length sp);
        silence_frames := 0;
        currently_recording := currently_recording st;
        speech_frames := sp |}, []).
Proof.
  intros self sp st Hflag Hsp.
  induction sp as [|frame l IH] using rev_ind; intros Hne; [congruence|].
  rewrite map_app, monitor_loop_app.
  change (map speech [frame]) with [(frame, Some true)].
  destruct l as [|f0 l'].
  - change (monitor_loop self st (map speech []))
      with (st, @nil (list Frame)).
    cbn [fst snd app]. rewrite monitor_loop_cons. cbn [monitor_loop fst snd].
    rewrite (speech_step_eq self st frame Hflag). cbn [fst snd].
    unfold classify_update. rewrite Hsp. reflexivity.
  - rewrite IH by discriminate. cbn [fst snd app].
    rewrite monitor_loop_cons. cbn [monitor_loop fst snd].
    rewrite speech_step_eq by exact Hflag. cbn [fst snd].
    unfold classify_update. cbn [speaking_frames speech_frames
                                  currently_recording].
    change (f0 :: l' ++ [frame]) with ((f0 :: l') ++ [frame]).
    rewrite length_app.
    destruct (Z.eqb_spec (Z.of_nat (List.length (f0 :: l')) + 1) 1);
      [cbn [List.length] in *; lia|].
    f_equal. f_equal. cbn [List.length]. lia.
Qed.

Lemma add_silence_0 : forall st, add_silence st 0 = st.
Proof.
  intros [sp sil rec buf]. unfold add_silence. simpl.
  rewrite Z.add_0_r. reflexivity.
Qed.

Lemma add_silence_S : forall st n,
  add_silence (add_silence st 1) n = add_silence st (S n).
Proof.
  intros st n. unfold add_silence. simpl speaking_frames.
  cbn [silence_frames currently_recording speech_frames].
  f_equal. lia.
Qed.

(** A silence frame on which neither condition holds. *)
Lemma quiet_silence_step : forall self st frame,
  speaking_frames st = 0 ->
  (currently_recording st = true /\
   silence_frames st + 1 < silence_threshold self) \/
  (currently_recording st = false /\ silence_frames st + 1 < 5) ->
  loop_body self st frame (Some false) = (add_silence st 1, None).
Proof.
  intros self st frame Hsp Hq.
  assert (E : classify_update st frame false = add_silence st 1).
  { unfold classify_update, add_silence. rewrite Hsp. reflexivity. }
  unfold loop_body. rewrite E. unfold dispatch_update, ready, long_silence.
  cbn [add_silence silence_frames currently_recording speech_frames].
  change (Z.of_nat 1) with 1.
  destruct Hq as [[Hrec Hlt]|[Hrec Hlt]]; rewrite Hrec.
  - rewrite andb_false_r. cbn [negb andb].
    destruct (Z.geb_spec (silence_frames st + 1) (silence_threshold self));
      [lia|reflexivity].
  - rewrite andb_false_r.
    destruct (Z.geb_spec (silence_frames st + 1) 5); [lia|].
    rewrite andb_false_r. reflexivity.
Qed.

Lemma quiet_silence_run : forall self more st,
  speaking_frames st = 0 ->
  (currently_recording st = true /\
   silence_frames st + Z.of_nat (List.length more) < silence_threshold self) \/
  (currently_recording st = false /\
   silence_frames st + Z.of_nat (List.length more) < 5) ->
  monitor_loop self st (map silence more)
  = (add_silence st (List.length more), []).
Proof.
  intros self more.
  induction more as [|frame rest IH]; intros st Hsp Hq.
  - simpl. rewrite add_silence_0. reflexivity.
  - cbn [map]. unfold silence at 1. rewrite monitor_loop_cons.
    rewrite quiet_silence_step; [|exact Hsp|].
    + cbn [fst snd]. rewrite IH.
      * cbn [fst snd]. rewrite add_silence_S. reflexivity.
      * exact Hsp.
      * cbn [add_silence silence_frames currently_recording].
        cbn [List.length] in Hq.
        destruct Hq as [[Hrec Hlt]|[Hrec Hlt]]; [left|right];
          (split; [exact Hrec|lia]).
    + cbn [List.length] in Hq.
      destruct Hq as [[Hrec Hlt]|[Hrec Hlt]]; [left|right];
        (split; [exact Hrec|lia]).
Qed.

Ltac fields_lia :=
  cbn [speaking_frames silence_frames currently_recording speech_frames
       List.length] in *;
  lia.

Lemma snoc_cases : forall (A : Type) (l : list A),
  l = [] \/ exists l' a, l = l' ++ [a].
Proof.
  intros A l. induction l as [|x l IH] using rev_ind.
  - left. reflexivity.
  - right. exists l, x. reflexivity.
Qed.

(** The first silence frame after speech, when neither condition holds. *)
Lemma first_silence_step : forall self st frame,
  0 <= speaking_frames st ->
  (currently_recording st = true /\
   silence_frames st + 1 < silence_threshold self) \/
  (currently_recording st = false /\ silence_frames st + 1 < 5) ->
  loop_body self st frame (Some false)
  = ({| speaking_frames := 0;
        silence_frames := silence_frames st + 1;
        currently_recording := currently_recording st;
        speech_frames := speech_frames st |}, None).
Proof.
  intros self st frame Hnn Hq.
  assert (E : classify_update st frame false
              = {| speaking_frames := 0;
                   silence_frames := silence_frames st + 1;
                   currently_recording := currently_recording st;
                   speech_frames := speech_frames st |}).
  { unfold classify_update.
    destruct (Z.gtb_spec (speaking_frames st) 0); [reflexivity|].
    replace (speaking_frames st) with 0 by lia. reflexivity. }
  unfold loop_body. rewrite E. unfold dispatch_update, ready, long_silence.
  cbn [silence_frames currently_recording speech_frames].
  destruct Hq as [[Hrec Hlt]|[Hrec Hlt]]; rewrite Hrec.
  - rewrite andb_false_r. cbn [negb andb].
    destruct (Z.geb_spec (silence_frames st + 1) (silence_threshold self));
      [lia|reflexivity].
  - rewrite andb_false_r.
    destruct (Z.geb_spec (silence_frames st + 1) 5); [lia|].
    rewrite andb_false_r. reflexivity.
Qed.

Lemma quiet_silence_after_speech : forall self st frame more,
  0 <= speaking_frames st ->
  (currently_recording st = true /\
   silence_frames st + 1 + Z.of_nat (List.length more)
   < silence_threshold self) \/
  (currently_recording st = false /\
   silence_frames st + 1 + Z.of_nat (List.length more) < 5) ->
  monitor_loop self st (map silence (frame :: more))
  = ({| speaking_frames := 0;
        silence_frames := silence_frames st + 1 + Z.of_nat (List.length more);
        currently_recording := currently_recording st;
        speech_frames := speech_frames st |}, []).
Proof.
  intros self st frame more Hnn Hq.
  cbn [map]. unfold silence at 1. rewrite monitor_loop_cons.
  rewrite first_silence_step; [|exact Hnn|].
  - cbn [fst snd]. rewrite quiet_silence_run; [reflexivity|reflexivity|].
    cbn [silence_frames currently_recording]. exact Hq.
  - destruct Hq as [[Hrec Hlt]|[Hrec Hlt]]; [left|right];
      (split; [exact Hrec|lia]).
Qed.

(** The silence frame on which the segment is dispatched. *)
Lemma ready_silence_step : forall self st frame,
  0 <= speaking_frames st ->
  currently_recording st = false ->
  speaking_threshold self <= Z.of_nat (List.length (speech_frames st)) ->
  5 <= silence_frames st + 1 ->
  loop_body self st frame (Some false)
  = ({| speaking_frames := 0;
        silence_frames := silence_frames st + 1;
        currently_recording := true;
        speech_frames := [] |}, Some (speech_frames st)).
Proof.
  intros self st frame Hnn Hfree Hlen Hsil.
  unfold loop_body, dispatch_update, ready, classify_update.
  cbn [silence_frames currently_recording speech_frames speaking_frames].
  rewrite Hfree.
  destruct (Z.geb_spec (Z.of_nat (List.length (speech_frames st)))
              (speaking_threshold self)); [|lia].
  destruct (Z.geb_spec (silence_frames st + 1) 5); [|lia].
  cbn [andb negb].
  destruct (Z.gtb_spec (speaking_frames st) 0); [reflexivity|].
  replace (speaking_frames st) with 0 by lia. reflexivity.
Qed.

(** The silence frame on which the flag is cleared. *)
Lemma clearing_silence_step : forall self st frame,
  0 <= speaking_frames st ->
  currently_recording st = true ->
  silence_threshold self <= silence_frames st + 1 ->
  loop_body self st frame (Some false)
  = ({| speaking_frames := 0;
        silence_frames := silence_frames st + 1;
        currently_recording := false;
        speech_frames := speech_frames st |}, None).
Proof.
  intros self st frame Hnn Hbusy Hsil.
  unfold loop_body, dispatch_update, ready, long_silence, classify_update.
  cbn [silence_frames currently_recording speech_frames speaking_frames].
  rewrite Hbusy. rewrite andb_false_r.
  destruct (Z.geb_spec (silence_frames st + 1) (silence_threshold self));
    [|lia].
  cbn [andb].
  destruct (Z.gtb_spec (speaking_frames st) 0); [reflexivity|].
  replace (speaking_frames st) with 0 by lia. reflexivity.
Qed.

Lemma monitor_loop_one : forall self st frame vad,
  monitor_loop self st [(frame, vad)]
  = (fst (loop_body self st frame vad),
     match snd (loop_body self st frame vad) with
     | Some s => [s]
     | None => []
     end).
Proof. intros. rewrite monitor_loop_cons. reflexivity. Qed.

(** ** An utterance followed by a pause *)

(** X4.  No dispatch pending, the loop not in a run of speech: a run of
    speech frames at least [speaking_threshold] long followed by five
    silence frames is dispatched whole, as the only segment, and the
    loop is left busy with an empty buffer; with fewer than five silence
    frames nothing is dispatched yet. *)
Theorem speech_then_pause_is_dispatched : forall self st sp si,
  currently_recording st = false ->
  speaking_frames st = 0 ->
  sp <> [] ->
  speaking_threshold self <= Z.of_nat (List.length sp) ->
  List.length si = 5%nat ->
  monitor_loop self st (map speech sp ++ map silence si)
  = ({| speaking_frames := 0;
        silence_frames := 5;
        currently_recording := true;
        speech_frames := [] |}, [sp]) /\
  (forall quiet, (List.length quiet < 5)%nat ->
     snd (monitor_loop self st (map speech sp ++ map silence quiet)) = []).
Proof.
  intros self st sp si Hfree Hsp Hne Hlen Hsi.
  pose proof (speech_run self sp st (or_introl Hfree) Hsp Hne) as Hrun.
  rewrite Hfree in Hrun.
  split.
  - destruct si as [|g1 [|g2 [|g3 [|g4 [|g5 [|]]]]]]; try discriminate.
    change (map silence [g1; g2; g3; g4; g5])
      with (map silence (g1 :: [g2; g3; g4]) ++ [(g5, Some false)]).
    rewrite !monitor_loop_app, Hrun. cbn [fst snd].
    rewrite quiet_silence_after_speech;
      [|fields_lia|right; split; [reflexivity|fields_lia]].
    cbn [fst snd]. rewrite monitor_loop_one.
    rewrite ready_silence_step;
      [reflexivity|fields_lia|reflexivity|exact Hlen|fields_lia].
  - intros quiet Hq. rewrite monitor_loop_app, Hrun. cbn [fst snd app].
    destruct quiet as [|g more]; [reflexivity|].
    rewrite quiet_silence_after_speech; [reflexivity|fields_lia|].
    right. split; [reflexivity|]. fields_lia.
Qed.

Lemma speech_then_pause_is_dispatched_witness :
  snd (monitor_loop init loop_init
         (map speech (six_frames ++ five_frames) ++ map silence five_frames))
  = [six_frames ++ five_frames].
Proof.
  assert (H6 : speaking_threshold init
               <= Z.of_nat (List.length (six_frames ++ five_frames)))
    by discriminate.
  assert (Hne : six_frames ++ five_frames <> []) by discriminate.
  destruct (speech_then_pause_is_dispatched init loop_init
              (six_frames ++ five_frames) five_frames
              eq_refl eq_refl Hne H6 eq_refl) as [H _].
  rewrite H. reflexivity.
Defined.

(** ** An utterance that ends while a dispatch is pending *)

(** X5.  A dispatch pending ([currently_recording] set), the loop not in
    a run of speech, and [silence_threshold >= 5]: a run of speech
    frames at least [speaking_threshold] long is not dispatched during
    the first [silence_threshold] silence frames that follow it (the
    last of them clears the flag); it is dispatched whole on the next
    silence frame. *)
Theorem busy_segment_waits_for_long_silence : forall self st sp si,
  currently_recording st = true ->
  speaking_frames st = 0 ->
  sp <> [] ->
  speaking_threshold self <= Z.of_nat (List.length sp) ->
  5 <= silence_threshold self ->
  Z.of_nat (List.length si) = silence_threshold self + 1 ->
  monitor_loop self st (map speech sp ++ map silence si)
  = ({| speaking_frames := 0;
        silence_frames := silence_threshold self + 1;
        currently_recording := true;
        speech_frames := [] |}, [sp]) /\
  (forall quiet, Z.of_nat (List.length quiet) <= silence_threshold self ->
     snd (monitor_loop self st (map speech sp ++ map silence quiet)) = []).
Proof.
  intros self st sp si Hbusy Hsp Hne Hlen HT Hsi.
  assert (Hflag : currently_recording st = false \/ 0 < silence_threshold self)
    by (right; lia).
  pose proof (speech_run self sp st Hflag Hsp Hne) as Hrun.
  rewrite Hbusy in Hrun.
  assert (Hquiet : forall g more last,
    Z.of_nat (List.length (g :: more)) + 1 = silence_threshold self ->
    monitor_loop self st
      (map speech sp ++ map silence ((g :: more) ++ [last]))
    = ({| speaking_frames := 0;
          silence_frames := silence_threshold self;
          currently_recording := false;
          speech_frames := sp |}, [])).
  { intros g more last Hm.
    rewrite map_app, app_assoc, monitor_loop_app.
    rewrite (monitor_loop_app self (map speech sp)), Hrun. cbn [fst snd].
    rewrite (quiet_silence_after_speech self _ g more);
      [|fields_lia|left; split; [reflexivity|fields_lia]].
    cbn [fst snd]. change (map silence [last]) with [(last, Some false)].
    rewrite monitor_loop_one.
    rewrite clearing_silence_step; [|fields_lia|reflexivity|fields_lia].
    cbn [fst snd silence_frames speech_frames]. f_equal. f_equal.
    fields_lia. }
  split.
  - destruct (snoc_cases _ si) as [E|(si1 & last & E)]; subst si.
    { fields_lia. }
    rewrite length_app in Hsi. cbn [List.length] in Hsi.
    destruct (snoc_cases _ si1) as [E|(si2 & before & E)]; subst si1.
    { fields_lia. }
    rewrite length_app in Hsi. cbn [List.length] in Hsi.
    destruct si2 as [|g more]; [fields_lia|].
    rewrite map_app, app_assoc, monitor_loop_app.
    rewrite Hquiet by fields_lia.
    cbn [fst snd]. change (map silence [last]) with [(last, Some false)].
    rewrite monitor_loop_one.
    rewrite ready_silence_step;
      [|fields_lia|reflexivity|exact Hlen|fields_lia].
    cbn [fst snd silence_frames speech_frames]. reflexivity.
  - intros quiet Hq.
    destruct (Z.eq_dec (Z.of_nat (List.length quiet))
                (silence_threshold self)) as [E|E].
    + destruct (snoc_cases _ quiet) as [E'|(q1 & last & E')]; subst quiet.
      { fields_lia. }
      rewrite length_app in E. cbn [List.length] in E.
      destruct q1 as [|g more]; [fields_lia|].
      rewrite Hquiet by fields_lia. reflexivity.
    + rewrite monitor_loop_app, Hrun. cbn [fst snd app].
      destruct quiet as [|g more]; [reflexivity|].
      rewrite quiet_silence_after_speech; [reflexivity|fields_lia|].
      left. split; [reflexivity|]. fields_lia.
Qed.

Lemma busy_segment_waits_for_long_silence_witness :
  snd (monitor_loop init busy_locals
         (map speech six_frames ++ map silence sixteen_frames))
  = [six_frames].
Proof.
  assert (H6 : speaking_threshold init
               <= Z.of_nat (List.length six_frames)) by discriminate.
  assert (Hne : six_frames <> []) by discriminate.
  assert (H5 : 5 <= silence_threshold init) by discriminate.
  destruct (busy_segment_waits_for_long_silence init busy_locals
              six_frames sixteen_frames
              eq_refl eq_refl Hne H6 H5 eq_refl) as [H _].
  rewrite H. reflexivity.
Defined.

(** ** Only speech frames are dispatched *)

Lemma frames_invariant : forall (P : Frame -> Prop) self input st,
  Forall P (speech_frames st) ->
  (forall frame, In (frame, Some true) input -> P frame) ->
  Forall (Forall P) (snd (monitor_loop self st input)) /\
  Forall P (speech_frames (fst (monitor_loop self st input))).
Proof.
  intros P self input.
  induction input as [|[frame vad] rest IH]; intros st Hbuf Hin.
  - split; [constructor|exact Hbuf].
  - rewrite monitor_loop_cons. cbn [fst snd].
    assert (Hrest : forall f, In (f, Some true) rest -> P f).
    { intros f Hf. apply Hin. right. exact Hf. }
    destruct vad as [[|]|].
    + destruct (speech_step self st frame) as (Hnone & _ & _ & Hb & _).
      rewrite Hnone. apply IH; [|exact Hrest].
      rewrite Hb. assert (Hframe : P frame) by (apply Hin; left; reflexivity).
      destruct (speaking_frames st =? 0).
      * constructor; [exact Hframe|constructor].
      * apply Forall_app. split; [exact Hbuf|].
        constructor; [exact Hframe|constructor].
    + unfold loop_body.
      destruct (speech_frames_dispatch_update self
                  (classify_update st frame false)) as [[Hs Hb]|[Hs Hb]];
        rewrite Hs.
      * apply IH; [rewrite Hb; exact Hbuf|exact Hrest].
      * destruct (IH (fst (dispatch_update self
                             (classify_update st frame false))))
          as [H1 H2]; [rewrite Hb; constructor|exact Hrest|].
        split; [constructor; [exact Hbuf|exact H1]|exact H2].
    + apply IH; [exact Hbuf|exact Hrest].
Qed.

(** X6.  Every frame of every dispatched segment, and every frame in the
    buffer, is a frame of the input that the classifier called speech:
    a frame classified as silence, or one the classifier failed on, is
    never handed to the recogniser. *)
Theorem only_speech_frames_dispatched : forall self input,
  Forall (Forall (fun frame => In (frame, Some true) input))
    (snd (monitor_voice self input)) /\
  Forall (fun frame => In (frame, Some true) input)
    (speech_frames (fst (monitor_voice self input))).
Proof.
  intros self input. unfold monitor_voice.
  apply frames_invariant; [constructor|auto].
Qed.

Lemma length_concat_frames : forall (n : nat) (frames : list Frame),
  Forall (fun frame => List.length frame = n) frames ->
  List.length (List.concat frames) = (n * List.length frames)%nat.
Proof.
  intros n frames H. induction H as [|frame frames Hf _ IH].
  - simpl. lia.
  - simpl. rewrite length_app, IH, Hf. lia.
Qed.

(** X7.  [process_speech_segment] on what the loop dispatches: when all
    captured frames have [n] bytes (640 for the stream opened by
    [setup_audio]), the audio handed to each recognition thread is a
    whole number of frames, [n] bytes for each frame of the segment, and
    at least [speaking_threshold] frames long. *)
Theorem dispatched_audio_is_whole_frames : forall self input (n : nat),
  Forall (fun x => List.length (fst x) = n) input ->
  Forall (fun seg =>
            List.length (process_speech_segment seg)
            = (n * List.length seg)%nat /\
            speaking_threshold self * Z.of_nat n
            <= Z.of_nat (List.length (process_speech_segment seg)))
    (snd (monitor_voice self input)).
Proof.
  intros self input n Hall. unfold monitor_voice.
  pose proof (segments_reach_threshold self input loop_init) as H1.
  destruct (frames_invariant (fun frame => List.length frame = n)
              self input loop_init) as [H2 _]; [constructor| |].
  { intros frame Hin. rewrite Forall_forall in Hall.
    apply (Hall _ Hin). }
  rewrite Forall_forall in *. intros seg Hseg.
  specialize (H1 seg Hseg). specialize (H2 seg Hseg).
  unfold process_speech_segment.
  rewrite (length_concat_frames n seg H2). split; [reflexivity|]. nia.
Qed.

Lemma dispatched_audio_is_whole_frames_witness :
  Forall (fun seg =>
            List.length (process_speech_segment seg)
            = (1 * List.length seg)%nat /\
            speaking_threshold init * Z.of_nat 1
            <= Z.of_nat (List.length (process_speech_segment seg)))
    (snd (monitor_voice init
            (map speech six_frames ++ map silence five_frames))).
Proof.
  apply (dispatched_audio_is_whole_frames init
           (map speech six_frames ++ map silence five_frames) 1%nat).
  repeat constructor.
Defined.

(** * Further properties of the dispatcher *)

Lemma lower_char_idempotent : forall c,
  lower_char (lower_char c) = lower_char c.
Proof. intros [[] [] [] [] [] [] [] []]; reflexivity. Qed.

Lemma lower_idempotent : forall s, lower (lower s) = lower s.
Proof.
  induction s as [|c s IH]; [reflexivity|].
  simpl. rewrite lower_char_idempotent, IH. reflexivity.
Qed.


Example lower_latin1_capital :
  lower (String (ascii_of_nat 201) "COLE Send")
  = String (ascii_of_nat 233) "cole send".
Proof. reflexivity. Qed.

(** ** Matching ignores the case of the transcript *)



(** ** No keyword is hidden by an earlier one *)

(** X9.  Every keyword of the table, spoken alone in any mix of upper
    and lower case, executes its own action: no entry is shadowed by an
    entry before it. *)
Theorem every_keyword_reachable :
  forall self spoken keyword action current_time run,
  In (keyword, action) keywords ->
  lower spoken = keyword ->
  snd (listen_for_keywords self (Text spoken) current_time run)
  = [Executed keyword action].
Proof.
  intros self spoken keyword action current_time run Hin Hlow.
  unfold listen_for_keywords. rewrite Hlow.
  unfold keywords in Hin. simpl In in Hin.
  repeat (destruct Hin as [Hin|Hin];
          [inversion Hin; subst keyword action; reflexivity|]).
  destruct Hin.
Qed.

Lemma every_keyword_reachable_witness :
  snd (listen_for_keywords init (Text "Scroll DOWN") (100 # 1)%Q Completed)
  = [Executed "scroll down" scroll_down].
Proof.
  apply (every_keyword_reachable init "Scroll DOWN" "scroll down"
           scroll_down (100 # 1)%Q Completed); [|reflexivity].
  do 4 right. left. reflexivity.
Defined.

(** ** What one call can do *)

Lemma call_action_fields : forall self action,
  speaking_threshold (call_action self action) = speaking_threshold self /\
  silence_threshold (call_action self action) = silence_threshold self /\
  debounce_time (call_action self action) = debounce_time self /\
  last_trigger_time (call_action self action) = last_trigger_time self /\
  last_speech_text (call_action self action) = last_speech_text self.
Proof. intros self []; repeat split; reflexivity. Qed.

(** One call either activates the dictation, at least [debounce_time]
    after [last_trigger_time], which becomes the time of the call, or it
    does not and leaves [last_trigger_time] alone.  It gives at most one
    event and never changes [debounce_time]. *)
Lemma listen_for_keywords_cases : forall self recognized current_time run,
  debounce_time (fst (listen_for_keywords self recognized current_time run))
  = debounce_time self /\
  (List.length (snd (listen_for_keywords self recognized current_time run))
   <= 1)%nat /\
  ((snd (listen_for_keywords self recognized current_time run)
    = [DictationActivated] /\
    last_trigger_time
      (fst (listen_for_keywords self recognized current_time run))
    = current_time /\
    (debounce_time self <= current_time - last_trigger_time self)%Q) \/
   (filter is_activation
      (map (pair current_time)
         (snd (listen_for_keywords self recognized current_time run))) = [] /\
    last_trigger_time
      (fst (listen_for_keywords self recognized current_time run))
    = last_trigger_time self)).
Proof.
  intros self recognized current_time run.
  destruct recognized as [transcript| |];
    [|split; [reflexivity|split; [simpl; lia|right; split; reflexivity]]..].
  unfold listen_for_keywords.
  destruct (scan_keywords keywords (lower transcript)) as [[k a]|].
  - cbn [fst snd].
    destruct (call_action_fields
                (set_last_speech_text self (lower transcript)) a)
      as (_ & _ & Hd & Hl & _).
    split; [exact Hd|]. split; [simpl; lia|].
    right. split; [reflexivity|exact Hl].
  - cbn [listening_mode set_last_speech_text].
    destruct (listening_mode self);
      [|split; [reflexivity|split; [simpl; lia|right; split; reflexivity]]].
    unfold trigger_dictation.
    cbn [last_trigger_time debounce_time set_last_speech_text].
    destruct (Qlt_bool (current_time - last_trigger_time self)
                (debounce_time self)) eqn:E.
    + split; [reflexivity|split; [simpl; lia|right; split; reflexivity]].
    + apply Qlt_bool_false in E. destruct run.
      * split; [reflexivity|]. split; [simpl; lia|]. left.
        split; [reflexivity|]. split; [reflexivity|exact E].
      * split; [reflexivity|split; [simpl; lia|right; split; reflexivity]].
Qed.

Lemma separated_cons : forall d x times,
  separated d times ->
  match times with
  | [] => True
  | y :: _ => (d <= y - x)%Q
  end ->
  separated d (x :: times).
Proof.
  intros d x [|y times] Hs Hd; [exact I|]. split; assumption.
Qed.

Lemma listen_all_separated : forall calls self,
  separated (debounce_time self)
    (last_trigger_time self :: activation_times (snd (listen_all self calls))).
Proof.
  induction calls as [|[[recognized current_time] run] rest IH]; intros self.
  - exact I.
  - cbn [listen_all].
    destruct (listen_for_keywords_cases self recognized current_time run)
      as (Hd & _ & Hcases).
    pose proof (IH (fst (listen_for_keywords self recognized current_time
                           run))) as IH'.
    destruct (listen_for_keywords self recognized current_time run)
      as [self1 events].
    cbn [fst snd] in *.
    destruct (listen_all self1 rest) as [self2 later]. cbn [snd] in *.
    unfold activation_times. rewrite filter_app, map_app.
    fold (activation_times later).
    rewrite Hd in IH'.
    destruct Hcases as [(Hev & Hl & Hge)|(Hev & Hl)].
    + subst events. cbn [map filter is_activation snd fst app].
      rewrite Hl in IH'. split; [exact Hge|exact IH'].
    + rewrite Hev. cbn [map app]. rewrite Hl in IH'. exact IH'.
Qed.

(** ** Activations are never closer than the debounce time *)

(** X10.  When the calls of [listen_for_keywords] follow one another,
    whatever is heard and however the clock runs, each activation of the
    dictation is at least [debounce_time] after the one before it, and
    the first at least [debounce_time] after the initial
    [last_trigger_time]. *)
Theorem activations_are_separated : forall self calls,
  separated (debounce_time self)
    (last_trigger_time self :: activation_times (snd (listen_all self calls))).
Proof. intros self calls. apply listen_all_separated. Qed.

Example activations_of_three_calls :
  activation_times
    (snd (listen_all init
            [(Text "hello there", (100 # 1)%Q, Completed);
             (Text "hello again", (1003 # 10)%Q, Completed);
             (Text "and again", (1012 # 10)%Q, Completed)]))
  = [(100 # 1)%Q; (1012 # 10)%Q].
Proof. reflexivity. Qed.

(** * Further properties of the loop together with its threads *)

Lemma sys_step_iteration : forall s frame vad,
  sys_step s (Iteration frame vad)
  = ({| vad_self := vad_self s;
        locals := fst (loop_body (vad_self s) (locals s) frame vad);
        in_flight :=
          in_flight s ++
          match snd (loop_body (vad_self s) (locals s) frame vad) with
          | Some frames => [process_speech_segment frames]
          | None => []
          end |}, []).
Proof.
  intros. cbn [sys_step].
  destruct (loop_body (vad_self s) (locals s) frame vad). reflexivity.
Qed.

Lemma sys_step_thread : forall s n recognized current_time run audio,
  nth_error (in_flight s) n = Some audio ->
  sys_step s (ThreadDone n recognized current_time run)
  = ({| vad_self :=
          fst (listen_for_keywords (vad_self s) recognized current_time run);
        locals := locals s;
        in_flight := remove_nth n (in_flight s) |},
     snd (listen_for_keywords (vad_self s) recognized current_time run)).
Proof.
  intros s n recognized current_time run audio H. cbn [sys_step].
  rewrite H.
  destruct (listen_for_keywords (vad_self s) recognized current_time run).
  reflexivity.
Qed.

Lemma sys_step_no_thread : forall s n recognized current_time run,
  nth_error (in_flight s) n = None ->
  sys_step s (ThreadDone n recognized current_time run) = (s, []).
Proof. intros s n recognized current_time run H. cbn [sys_step]. rewrite H. reflexivity. Qed.

Lemma sys_run_cons : forall s step rest,
  sys_run s (step :: rest)
  = (fst (sys_run (fst (sys_step s step)) rest),
     snd (sys_step s step) ++ snd (sys_run (fst (sys_step s step)) rest)).
Proof.
  intros. cbn [sys_run]. destruct (sys_step s step) as [s1 ev1].
  cbn [fst snd]. destruct (sys_run s1 rest). reflexivity.
Qed.

Lemma remove_nth_length : forall (A : Type) (l : list A) n x,
  nth_error l n = Some x ->
  S (List.length (remove_nth n l)) = List.length l.
Proof.
  intros A l. induction l as [|y l IH]; intros n x H.
  - destruct n; discriminate H.
  - destruct n as [|n]; [reflexivity|].
    simpl in *. rewrite (IH n x H). reflexivity.
Qed.

Lemma sys_run_accounting : forall steps s,
  (List.length (snd (sys_run s steps))
   + List.length (in_flight (fst (sys_run s steps)))
   <= List.length (in_flight s)
      + List.length
          (snd (monitor_loop (vad_self s) (locals s) (iterations steps))))%nat.
Proof.
  induction steps as [|step rest IH]; intros s.
  - simpl. lia.
  - rewrite sys_run_cons. cbn [fst snd]. rewrite length_app.
    specialize (IH (fst (sys_step s step))).
    destruct step as [frame vad|n recognized current_time run].
    + rewrite sys_step_iteration in *. cbn [fst snd vad_self locals in_flight] in *.
      cbn [iterations]. rewrite monitor_loop_cons. cbn [snd].
      rewrite length_app in IH.
      destruct (snd (loop_body (vad_self s) (locals s) frame vad));
        cbn [List.length] in *; lia.
    + cbn [iterations].
      destruct (nth_error (in_flight s) n) as [audio|] eqn:Hn.
      * rewrite (sys_step_thread s n recognized current_time run audio Hn)
          in *.
        cbn [fst snd vad_self locals in_flight] in *.
        destruct (listen_for_keywords_thresholds (vad_self s) recognized
                    current_time run) as [H1 H2].
        rewrite (monitor_loop_thresholds _ (vad_self s) _ _ H1 H2) in IH.
        destruct (listen_for_keywords_cases (vad_self s) recognized
                    current_time run) as (_ & Hone & _).
        pose proof (remove_nth_length _ _ _ _ Hn). lia.
      * rewrite (sys_step_no_thread s n recognized current_time run Hn) in *.
        cbn [fst snd List.length] in *. lia.
Qed.

(** ** At most one action for each segment *)

(** X11.  In any interleaving of loop iterations and finishing threads,
    starting with no thread running, the actions taken so far plus the
    threads still running are at most as many as the segments the loop
    has dispatched: every action comes from a segment of its own, and a
    segment causes at most one action. *)
Theorem actions_bounded_by_segments : forall steps,
  (List.length (snd (sys_run sys_init steps))
   + List.length (in_flight (fst (sys_run sys_init steps)))
   <= List.length (snd (monitor_voice init (iterations steps))))%nat.
Proof.
  intros steps. pose proof (sys_run_accounting steps sys_init) as H.
  exact H.
Qed.

(** ** The configuration is never changed *)

(** X12.  No iteration of the loop and no thread, whatever it hears,
    changes [speaking_threshold], [silence_threshold] or
    [debounce_time]: after any run they are what they were. *)
Theorem configuration_is_never_changed : forall steps s,
  speaking_threshold (vad_self (fst (sys_run s steps)))
  = speaking_threshold (vad_self s) /\
  silence_threshold (vad_self (fst (sys_run s steps)))
  = silence_threshold (vad_self s) /\
  debounce_time (vad_self (fst (sys_run s steps)))
  = debounce_time (vad_self s).
Proof.
  induction steps as [|step rest IH]; intros s.
  - repeat split; reflexivity.
  - rewrite sys_run_cons. cbn [fst].
    destruct (IH (fst (sys_step s step))) as (H1 & H2 & H3).
    rewrite H1, H2, H3.
    destruct (sys_step_thresholds s step) as [H4 H5].
    split; [exact H4|]. split; [exact H5|].
    destruct step as [frame vad|n recognized current_time run].
    + rewrite sys_step_iteration. reflexivity.
    + destruct (nth_error (in_flight s) n) as [audio|] eqn:Hn.
      * rewrite (sys_step_thread s n recognized current_time run audio Hn).
        cbn [fst vad_self].
        apply listen_for_keywords_cases.
      * rewrite (sys_step_no_thread s n recognized current_time run Hn).
        reflexivity.
Qed.

(** * Properties of [find_anythingllm_window] *)

Example find_window_example :
  find_anythingllm_window (Stdout sample_output)
  = Some "AnythingLLM | Chat"%string.
Proof. reflexivity. Qed.

Lemma append_assoc : forall a b c : string,
  ((a ++ b) ++ c = a ++ (b ++ c))%string.
Proof.
  induction a as [|x a IH]; intros b c; [reflexivity|].
  simpl. rewrite IH. reflexivity.
Qed.

Lemma append_nil_r : forall a : string, (a ++ "" = a)%string.
Proof.
  induction a as [|x a IH]; [reflexivity|]. simpl. rewrite IH. reflexivity.
Qed.

Lemma occurs_refl : forall m, occurs m m.
Proof.
  intros m. exists EmptyString, EmptyString. simpl.
  rewrite append_nil_r. reflexivity.
Qed.

Lemma occurs_trans : forall m s t, occurs m s -> occurs s t -> occurs m t.
Proof.
  intros m s t [a [b Hs]] [a' [b' Ht]]. subst s t.
  exists (a' ++ a)%string, (b ++ b')%string.
  rewrite !append_assoc. reflexivity.
Qed.

Lemma occurs_prefix_part : forall m x y, occurs m x -> occurs m (x ++ y).
Proof.
  intros m x y H. apply (occurs_trans m x); [exact H|].
  exists EmptyString, y. reflexivity.
Qed.

Lemma occurs_suffix_part : forall m x y, occurs m y -> occurs m (x ++ y).
Proof.
  intros m x y H. apply (occurs_trans m y); [exact H|].
  exists x, EmptyString. rewrite append_nil_r. reflexivity.
Qed.

(** ** Stripping *)

Lemma lstrip_suffix : forall p s, exists w, s = (w ++ lstrip p s)%string.
Proof.
  intros p s. induction s as [|c s [w IH]].
  - exists EmptyString. reflexivity.
  - simpl. destruct (p c).
    + exists (String c w). simpl. rewrite <- IH. reflexivity.
    + exists EmptyString. reflexivity.
Qed.

Lemma lstrip_keeps : forall p m a b,
  starts_kept p m = true ->
  occurs m (lstrip p (a ++ m ++ b)).
Proof.
  intros p m a b Hm. induction a as [|c a IH].
  - destruct m as [|c m]; [discriminate|]. simpl in *.
    apply negb_true_iff in Hm. rewrite Hm.
    exists EmptyString, b. reflexivity.
  - simpl. destruct (p c); [exact IH|].
    exists (String c a), b. reflexivity.
Qed.

Lemma rstrip_prefix : forall p s, exists w, s = (rstrip p s ++ w)%string.
Proof.
  intros p s. induction s as [|c s [w IH]].
  - exists EmptyString. reflexivity.
  - simpl. destruct (rstrip p s) as [|d kept].
    + destruct (p c).
      * exists (String c s). reflexivity.
      * exists s. reflexivity.
    + exists w. simpl in *. rewrite <- IH. reflexivity.
Qed.

Lemma ends_kept_app : forall p a m,
  ends_kept p m = true -> ends_kept p (a ++ m) = true.
Proof.
  intros p a m Hm. induction a as [|c a IH]; [exact Hm|].
  simpl. destruct (a ++ m)%string eqn:E; [|exact IH].
  destruct a; simpl in E; [subst m; discriminate|discriminate].
Qed.

Lemma rstrip_app_kept : forall p x y,
  ends_kept p x = true ->
  rstrip p (x ++ y) = (x ++ rstrip p y)%string.
Proof.
  intros p x y. induction x as [|c x IH]; intros Hx; [discriminate|].
  destruct x as [|d x].
  - simpl in *. apply negb_true_iff in Hx. rewrite Hx.
    destruct (rstrip p y); reflexivity.
  - specialize (IH Hx). simpl in *. rewrite IH. reflexivity.
Qed.

Lemma strip_occurs : forall p m s,
  starts_kept p m = true -> ends_kept p m = true ->
  (occurs m (strip p s) <-> occurs m s).
Proof.
  intros p m s Hstart Hend. unfold strip. split.
  - intros H.
    destruct (rstrip_prefix p (lstrip p s)) as [w Hw].
    destruct (lstrip_suffix p s) as [v Hv].
    rewrite Hv, Hw.
    apply occurs_suffix_part, occurs_prefix_part. exact H.
  - intros [a [b Hs]]. subst s.
    destruct (lstrip_keeps p m a b Hstart) as [a' [b' E]].
    rewrite E. rewrite <- append_assoc.
    rewrite rstrip_app_kept by (apply ends_kept_app; exact Hend).
    exists a', (rstrip p b'). rewrite append_assoc. reflexivity.
Qed.

Lemma lstrip_starts : forall p s,
  lstrip p s = EmptyString \/ starts_kept p (lstrip p s) = true.
Proof.
  intros p s. induction s as [|c s IH]; [left; reflexivity|].
  simpl. destruct (p c) eqn:E; [exact IH|].
  right. simpl. rewrite E. reflexivity.
Qed.

Lemma rstrip_starts : forall p s,
  starts_kept p s = true -> starts_kept p (rstrip p s) = true.
Proof.
  intros p [|c s] H; [discriminate|].
  simpl in *. destruct (rstrip p s).
  - apply negb_true_iff in H. rewrite H. simpl. rewrite H. reflexivity.
  - exact H.
Qed.

Lemma rstrip_ends : forall p s,
  rstrip p s = EmptyString \/ ends_kept p (rstrip p s) = true.
Proof.
  intros p s. induction s as [|c s IH]; [left; reflexivity|].
  simpl. destruct (rstrip p s) as [|d kept].
  - destruct (p c) eqn:E; [left; reflexivity|].
    right. simpl. rewrite E. reflexivity.
  - right. destruct IH as [IH|IH]; [discriminate|]. exact IH.
Qed.

Lemma strip_kept : forall p s,
  strip p s = EmptyString \/
  (starts_kept p (strip p s) = true /\ ends_kept p (strip p s) = true).
Proof.
  intros p s. unfold strip.
  destruct (rstrip_ends p (lstrip p s)) as [E|E]; [left; exact E|].
  right. split; [|exact E].
  destruct (lstrip_starts p s) as [H|H].
  - rewrite H in E. discriminate.
  - apply rstrip_starts. exact H.
Qed.

Lemma ends_kept_snoc : forall p t c,
  ends_kept p (t ++ String c EmptyString) = negb (p c).
Proof.
  intros p t c. induction t as [|d t IH]; [reflexivity|].
  simpl. destruct (t ++ String c EmptyString)%string eqn:E; [|exact IH].
  destruct t; discriminate.
Qed.

(** ** Splitting at the separator *)

Lemma split_sep : forall rest,
  split_comma_space (String "," (String " " rest))
  = EmptyString :: split_comma_space rest.
Proof. reflexivity. Qed.

Lemma split_other : forall c rest,
  (forall rest', String c rest <> String "," (String " " rest')) ->
  split_comma_space (String c rest)
  = cons_char c (split_comma_space rest).
Proof.
  intros c rest Hno. destruct rest as [|d rest']; [reflexivity|].
  cbn [split_comma_space].
  destruct (Ascii.eqb_spec c ","); [|reflexivity].
  destruct (Ascii.eqb_spec d " "); [|reflexivity].
  subst c d. exfalso. apply (Hno rest'). reflexivity.
Qed.

(** Induction along the recursion of [split_comma_space]. *)
Lemma split_ind : forall P : string -> Prop,
  P EmptyString ->
  (forall rest, P rest -> P (String "," (String " " rest))) ->
  (forall c rest,
     (forall rest', String c rest <> String "," (String " " rest')) ->
     P rest -> P (String c rest)) ->
  forall s, P s.
Proof.
  intros P Hnil Hsep Hother.
  assert (H : forall s, P s /\ forall c, P (String c s)).
  { induction s as [|d s [IH1 IH2]].
    - split; [exact Hnil|]. intros c. apply Hother; [discriminate|exact Hnil].
    - split; [apply IH2|]. intros c.
      destruct (Ascii.eqb_spec c ",") as [Ec|Ec].
      + destruct (Ascii.eqb_spec d " ") as [Ed|Ed].
        * subst c d. apply Hsep. exact IH1.
        * apply Hother; [|apply IH2]. intros rest' E. inversion E. congruence.
      + apply Hother; [|apply IH2]. intros rest' E. inversion E. congruence. }
  intros s. apply H.
Qed.

Lemma split_nonempty : forall s, split_comma_space s <> [].
Proof.
  intros s. induction s using split_ind.
  - discriminate.
  - rewrite split_sep. discriminate.
  - rewrite split_other by assumption.
    destruct (split_comma_space s); discriminate.
Qed.

Lemma concat_cons_char : forall c pieces,
  pieces <> [] ->
  String.concat ", " (cons_char c pieces)
  = String c (String.concat ", " pieces).
Proof.
  intros c [|piece [|next rest]] H; [congruence|reflexivity|reflexivity].
Qed.

Lemma split_concat : forall s,
  String.concat ", " (split_comma_space s) = s.
Proof.
  intros s. induction s as [|rest IH|c rest Hno IH] using split_ind.
  - reflexivity.
  - rewrite split_sep.
    pose proof (split_nonempty rest) as Hne.
    destruct (split_comma_space rest) as [|piece pieces]; [congruence|].
    change (String.concat ", " (EmptyString :: piece :: pieces))
      with (EmptyString ++ ", " ++ String.concat ", " (piece :: pieces))%string.
    rewrite IH. reflexivity.
  - rewrite split_other by exact Hno.
    rewrite concat_cons_char by apply split_nonempty.
    rewrite IH. reflexivity.
Qed.

(** The first piece is the string itself or is followed by a comma. *)
Lemma split_first_piece : forall s piece pieces,
  split_comma_space s = piece :: pieces ->
  s = piece \/ exists t, s = (piece ++ String "," t)%string.
Proof.
  intros s piece pieces H.
  pose proof (split_concat s) as E. rewrite H in E.
  destruct pieces as [|next pieces]; [left; symmetry; exact E|].
  right.
  change (String.concat ", " (piece :: next :: pieces))
    with (piece ++ ", " ++ String.concat ", " (next :: pieces))%string in E.
  eexists. rewrite <- E. reflexivity.
Qed.

Lemma prefix_before_comma : forall m piece t,
  plain m = true ->
  String.prefix m (piece ++ String "," t) = true ->
  String.prefix m piece = true.
Proof.
  intros m piece. revert m.
  induction piece as [|x piece IH]; intros m t Hplain H.
  - destruct m as [|e m]; [reflexivity|].
    simpl in H. destruct (ascii_dec e ","); [|discriminate].
    subst e. simpl in Hplain. discriminate.
  - destruct m as [|e m]; [reflexivity|].
    simpl in *. destruct (ascii_dec e x); [|discriminate].
    apply (IH m t); [|exact H].
    apply andb_true_iff in Hplain. tauto.
Qed.

Lemma str_in_cons : forall m c s,
  str_in m s = true -> str_in m (String c s) = true.
Proof.
  intros m c s H. cbn [str_in]. rewrite H. apply orb_true_r.
Qed.

Lemma str_in_prefix : forall m s,
  String.prefix m s = true -> str_in m s = true.
Proof. intros m s H. destruct s; cbn [str_in]; rewrite H; reflexivity. Qed.

(** A plain word found in the string is found in one of the pieces. *)
Lemma split_keeps_plain : forall s m,
  m <> EmptyString -> plain m = true ->
  str_in m s = true ->
  exists piece, In piece (split_comma_space s) /\ str_in m piece = true.
Proof.
  intros s. induction s as [|rest IH|c rest Hno IH] using split_ind;
    intros m Hne Hplain Hin.
  - destruct m; [congruence|discriminate].
  - destruct m as [|e m]; [congruence|].
    assert (He : e <> ","%char /\ e <> " "%char).
    { simpl in Hplain. apply andb_true_iff in Hplain.
      destruct Hplain as [Hplain _]. apply andb_true_iff in Hplain.
      destruct Hplain as [H1 H2].
      apply negb_true_iff in H1. apply negb_true_iff in H2.
      split; [apply Ascii.eqb_neq; exact H1|apply Ascii.eqb_neq; exact H2]. }
    destruct He as [He1 He2].
    cbn [str_in String.prefix] in Hin.
    destruct (ascii_dec e ","); [contradiction|].
    destruct (ascii_dec e " "); [contradiction|].
    cbn [orb] in Hin.
    destruct (IH (String e m) Hne Hplain) as [piece [H1 H2]].
    { destruct rest; exact Hin. }
    exists piece. rewrite split_sep. split; [right; exact H1|exact H2].
  - rewrite split_other by exact Hno.
    pose proof (split_nonempty rest) as Hnonempty.
    destruct (split_comma_space rest) as [|first pieces] eqn:Hsplit;
      [congruence|].
    cbn [cons_char].
    cbn [str_in] in Hin. apply orb_true_iff in Hin.
    destruct Hin as [Hpre|Hin].
    + exists (String c first). split; [left; reflexivity|].
      apply str_in_prefix.
      destruct m as [|e m]; [congruence|].
      cbn [String.prefix] in *.
      destruct (ascii_dec e c); [|discriminate].
      assert (Hm : plain m = true).
      { simpl in Hplain. apply andb_true_iff in Hplain. tauto. }
      destruct (split_first_piece rest first pieces Hsplit) as [E|[t E]].
      * rewrite <- E. exact Hpre.
      * rewrite E in Hpre. apply (prefix_before_comma m first t Hm Hpre).
    + destruct (IH m Hne Hplain Hin) as [piece [[H1|H1] H2]].
      * subst piece. exists (String c first).
        split; [left; reflexivity|apply str_in_cons; exact H2].
      * exists piece. split; [right; exact H1|exact H2].
Qed.

Lemma concat_occurs : forall piece pieces,
  In piece pieces -> occurs piece (String.concat ", " pieces).
Proof.
  intros piece pieces. induction pieces as [|first pieces IH]; intros H.
  - destruct H.
  - destruct pieces as [|next pieces].
    + destruct H as [H|[]]. subst. apply occurs_refl.
    + change (String.concat ", " (first :: next :: pieces))
        with (first ++ ", " ++ String.concat ", " (next :: pieces))%string.
      destruct H as [H|H].
      * subst. apply occurs_prefix_part, occurs_refl.
      * apply occurs_suffix_part, occurs_suffix_part. apply IH. exact H.
Qed.

Lemma split_piece_occurs : forall s piece,
  In piece (split_comma_space s) -> occurs piece s.
Proof.
  intros s piece H. rewrite <- (split_concat s).
  apply concat_occurs. exact H.
Qed.

(** No piece contains the separator. *)
Lemma split_pieces_no_separator : forall s,
  Forall (fun piece => str_in ", " piece = false) (split_comma_space s).
Proof.
  intros s. induction s as [|rest IH|c rest Hno IH] using split_ind.
  - repeat constructor.
  - rewrite split_sep. constructor; [reflexivity|exact IH].
  - rewrite split_other by exact Hno.
    destruct (split_comma_space rest) as [|first pieces] eqn:Hsplit;
      [exfalso; exact (split_nonempty rest Hsplit)|].
    cbn [cons_char]. inversion IH as [|x l Hfirst Hrest]; subst.
    constructor; [|exact Hrest].
    cbn [str_in]. rewrite Hfirst, orb_false_r.
    cbn [String.prefix].
    destruct (ascii_dec "," c) as [Ec|Ec]; [|reflexivity].
    subst c. destruct first as [|d first]; [reflexivity|].
    cbn [String.prefix].
    destruct (ascii_dec " " d) as [Ed|Ed]; [|reflexivity].
    subst d. exfalso.
    destruct (split_first_piece rest _ pieces Hsplit) as [E|[t E]];
      rewrite E in Hno; simpl in Hno; eapply Hno; reflexivity.
Qed.

(** ** The round trip of the split *)

(** X13.  Joining the pieces of [s.split(', ')] with the separator gives
    [s] back; there is always at least one piece, and no piece contains
    the separator. *)
Theorem split_then_join_is_identity : forall s,
  String.concat ", " (split_comma_space s) = s /\
  split_comma_space s <> [] /\
  Forall (fun piece => ~ occurs ", " piece) (split_comma_space s).
Proof.
  intros s. split; [apply split_concat|]. split; [apply split_nonempty|].
  pose proof (split_pieces_no_separator s) as H.
  rewrite Forall_forall in *. intros piece Hin.
  apply str_in_false. apply H. exact Hin.
Qed.

(** ** When a window is found *)

Lemma find_first : forall (A : Type) (f : A -> bool) l x,
  find f l = Some x ->
  exists before after,
    l = before ++ x :: after /\ f x = true /\
    Forall (fun y => f y = false) before.
Proof.
  intros A f l x. induction l as [|y l IH]; intros H; [discriminate|].
  simpl in H. destruct (f y) eqn:E.
  - inversion H; subst. exists [], l. repeat split; [exact E|constructor].
  - destruct (IH H) as (before & after & Hl & Hx & Hb).
    exists (y :: before), after. subst l.
    repeat split; [exact Hx|constructor; assumption].
Qed.

Lemma is_anythingllm_occurs : forall window,
  is_anythingllm window = true <->
  occurs "AnythingLLM" window \/ occurs "localhost" window.
Proof.
  intros window. unfold is_anythingllm.
  rewrite orb_true_iff, !str_in_spec. reflexivity.
Qed.

Lemma marker_in_pieces : forall s,
  (exists piece, In piece (split_comma_space s) /\
                 is_anythingllm piece = true) <->
  occurs "AnythingLLM" s \/ occurs "localhost" s.
Proof.
  intros s. split.
  - intros [piece [Hin Hm]]. apply is_anythingllm_occurs in Hm.
    pose proof (split_piece_occurs s piece Hin) as Hp.
    destruct Hm as [Hm|Hm]; [left|right];
      exact (occurs_trans _ _ _ Hm Hp).
  - intros [H|H]; apply str_in_spec in H;
      apply split_keeps_plain in H; try reflexivity; try discriminate;
      destruct H as [piece [Hin Hm]]; exists piece;
      (split; [exact Hin|]); unfold is_anythingllm; rewrite Hm;
      [reflexivity|apply orb_true_r].
Qed.

(** X14.  [find_anythingllm_window] returns a window exactly when
    [osascript] did not raise and its output contains 'AnythingLLM' or
    'localhost' somewhere, in this very case of the letters. *)
Theorem window_found_iff_marker_in_output : forall result,
  find_anythingllm_window result <> None <->
  exists out,
    result = Stdout out /\
    (occurs "AnythingLLM" out \/ occurs "localhost" out).
Proof.
  intros [out|]; simpl.
  - assert (Hiff : (exists piece,
                      In piece (split_comma_space (strip is_space out)) /\
                      is_anythingllm piece = true) <->
                   occurs "AnythingLLM" out \/ occurs "localhost" out).
    { rewrite marker_in_pieces.
      rewrite (strip_occurs is_space "AnythingLLM" out eq_refl eq_refl).
      rewrite (strip_occurs is_space "localhost" out eq_refl eq_refl).
      reflexivity. }
    destruct (find is_anythingllm (split_comma_space (strip is_space out)))
      as [window|] eqn:Hfind.
    + split; [|discriminate]. intros _. exists out. split; [reflexivity|].
      apply Hiff. apply find_some in Hfind. exists window. exact Hfind.
    + split; [congruence|]. intros (out' & E & Hocc).
      inversion E; subst out'. apply Hiff in Hocc.
      destruct Hocc as (piece & Hin & Hm).
      pose proof (find_none _ _ Hfind piece Hin). congruence.
  - split; [congruence|]. intros (out & E & _). discriminate E.
Qed.

(** X15.  The window returned is the first piece of the stripped output
    that contains 'AnythingLLM' or 'localhost', with the double quotes
    at its two ends removed: it still contains that word, and it neither
    begins nor ends with a double quote. *)
Theorem found_window_is_first_match_unquoted : forall result window,
  find_anythingllm_window result = Some window ->
  (exists out before piece after,
     result = Stdout out /\
     split_comma_space (strip is_space out) = before ++ piece :: after /\
     Forall (fun w => is_anythingllm w = false) before /\
     is_anythingllm piece = true /\
     window = strip is_quote piece) /\
  (occurs "AnythingLLM" window \/ occurs "localhost" window) /\
  (forall t, window <> String (ascii_of_nat 34) t) /\
  (forall t, window <> (t ++ String (ascii_of_nat 34) EmptyString)%string).
Proof.
  intros [out|] window H; [|discriminate]. simpl in H.
  destruct (find is_anythingllm (split_comma_space (strip is_space out)))
    as [piece|] eqn:Hfind; [|discriminate].
  inversion H; subst window. clear H.
  destruct (find_first _ _ _ _ Hfind) as (before & after & Hl & Hm & Hb).
  assert (Hocc : occurs "AnythingLLM" (strip is_quote piece) \/
                 occurs "localhost" (strip is_quote piece)).
  { apply is_anythingllm_occurs in Hm.
    destruct Hm as [Hm|Hm]; [left|right];
      apply strip_occurs; try reflexivity; exact Hm. }
  split; [exists out, before, piece, after; repeat split; assumption|].
  split; [exact Hocc|].
  destruct (strip_kept is_quote piece) as [E|[Hs He]].
  - rewrite E in Hocc. exfalso.
    destruct Hocc as [[a [b Hab]]|[a [b Hab]]];
      destruct a; discriminate Hab.
  - split; intros t E; rewrite E in *.
    + discriminate Hs.
    + rewrite ends_kept_snoc in He. discriminate He.
Qed.

Lemma found_window_is_first_match_unquoted_witness :
  occurs "AnythingLLM" "AnythingLLM | Chat" \/
  occurs "localhost" "AnythingLLM | Chat".
Proof.
  apply (found_window_is_first_match_unquoted (Stdout sample_output)
           "AnythingLLM | Chat" eq_refl).
Defined.

(** * A bound on the rate of dispatches *)

Lemma silence_credit_bound : forall self input st,
  0 < speaking_threshold self ->
  0 <= silence_frames st ->
  5 * Z.of_nat (List.length (snd (monitor_loop self st input)))
  + silence_credit (fst (monitor_loop self st input))
  <= silence_credit st + Z.of_nat (silence_count input).
Proof.
  intros self input.
  induction input as [|[frame vad] rest IH]; intros st Hpos Hnn.
  - simpl. lia.
  - rewrite monitor_loop_cons. cbn [fst snd].
    assert (Hcredit : 0 <= silence_credit st).
    { unfold silence_credit. destruct (speech_frames st); lia. }
    destruct vad as [[|]|].
    + cbn [silence_count].
      destruct (speech_step self st frame) as (Hnone & _ & Hsil & _).
      rewrite Hnone.
      assert (Hc : silence_credit (fst (loop_body self st frame (Some true)))
                   = 0).
      { unfold silence_credit. rewrite Hsil.
        destruct (speech_frames (fst (loop_body self st frame (Some true))));
          reflexivity. }
      specialize (IH (fst (loop_body self st frame (Some true))) Hpos).
      rewrite Hc, Hsil in IH. lia.
    + cbn [silence_count]. unfold loop_body in *.
      set (st0 := classify_update st frame false) in *.
      assert (Hsil0 : silence_frames st0 = silence_frames st + 1)
        by reflexivity.
      assert (Hbuf0 : speech_frames st0 = speech_frames st) by reflexivity.
      clearbody st0.
      destruct (counters_dispatch_update self st0) as [_ Hsil1].
      specialize (IH (fst (dispatch_update self st0)) Hpos).
      rewrite Hsil1, Hsil0 in IH.
      destruct (snd (dispatch_update self st0)) as [seg|] eqn:Hseg.
      * apply dispatch_update_some in Hseg. destruct Hseg as [_ Hready].
        destruct (speech_frames_dispatch_update self st0)
          as [[Hs _]|[_ Hb]].
        { unfold dispatch_update in Hs. rewrite Hready in Hs.
          discriminate Hs. }
        unfold ready in Hready.
        apply andb_true_iff in Hready. destruct Hready as [Hready _].
        apply andb_true_iff in Hready. destruct Hready as [Hlen H5].
        rewrite Hsil0 in H5. rewrite Hbuf0 in Hlen.
        assert (Hc1 : silence_credit (fst (dispatch_update self st0)) = 0).
        { unfold silence_credit. rewrite Hb. reflexivity. }
        assert (Hc0 : silence_credit st = silence_frames st).
        { unfold silence_credit.
          destruct (speech_frames st); [simpl in Hlen; lia|reflexivity]. }
        rewrite Hc1 in IH. cbn [List.length]. lia.
      * destruct (speech_frames_dispatch_update self st0)
          as [[_ Hb]|[Hs _]]; [|congruence].
        assert (Hc1 : silence_credit (fst (dispatch_update self st0))
                      <= silence_credit st + 1).
        { unfold silence_credit. rewrite Hb, Hbuf0, Hsil1, Hsil0.
          destruct (speech_frames st); lia. }
        assert (Hstep : silence_credit (fst (dispatch_update self st0))
                        = match speech_frames st with
                          | [] => 0
                          | _ :: _ => silence_frames st + 1
                          end).
        { unfold silence_credit. rewrite Hb, Hbuf0, Hsil1, Hsil0.
          reflexivity. }
        lia.
    + specialize (IH st Hpos Hnn). cbn [silence_count loop_body fst snd].
      exact IH.
Qed.

(** X16.  With a positive [speaking_threshold], every dispatch uses up
    five silence frames of its own: from the initial locals, five times
    the number of dispatched segments is at most the number of frames
    classified as silence.  Together with the speech frames each segment
    holds, a dispatch takes at least [speaking_threshold + 5] classified
    frames. *)
Theorem dispatches_bounded_by_silence : forall self input,
  0 < speaking_threshold self ->
  5 * Z.of_nat (List.length (snd (monitor_voice self input)))
  <= Z.of_nat (silence_count input) /\
  (speaking_threshold self + 5)
  * Z.of_nat (List.length (snd (monitor_voice self input)))
  <= Z.of_nat (speech_count input) + Z.of_nat (silence_count input).
Proof.
  intros self input Hpos. unfold monitor_voice.
  pose proof (silence_credit_bound self input loop_init Hpos (Z.le_refl 0))
    as H.
  change (silence_credit loop_init) with 0 in H.
  assert (Hcredit : 0 <= silence_credit
                           (fst (monitor_loop self loop_init input))).
  { unfold silence_credit.
    destruct (loop_inv_reachable self input) as (_ & Hsil & _).
    unfold monitor_voice in Hsil.
    destruct (speech_frames (fst (monitor_loop self loop_init input))); lia. }
  assert (H5 : 5 * Z.of_nat (List.length
                               (snd (monitor_loop self loop_init input)))
               <= Z.of_nat (silence_count input)).
  { lia. }
  split; [exact H5|].
  pose proof (threshold_times_segments _ _
    (segments_reach_threshold self input loop_init)) as H2.
  pose proof (dispatched_frames_bounded_from self input loop_init) as H3.
  simpl in H3. lia.
Qed.

Lemma dispatches_bounded_by_silence_witness :
  5 * Z.of_nat
        (List.length
           (snd (monitor_voice init
                   (map speech six_frames ++ map silence five_frames))))
  <= Z.of_nat (silence_count
                 (map speech six_frames ++ map silence five_frames)).
Proof.
  apply (dispatches_bounded_by_silence init
           (map speech six_frames ++ map silence five_frames)).
  reflexivity.
Defined.

(** * The text remembered in [last_speech_text] *)

Lemma listen_for_keywords_last_speech_text :
  forall self recognized current_time run,
  last_speech_text (fst (listen_for_keywords self recognized current_time run))
  = match recognized with
    | Text transcript => lower transcript
    | _ => last_speech_text self
    end.
Proof.
  intros self [transcript| |] current_time run; [|reflexivity..].
  unfold listen_for_keywords.
  destruct (scan_keywords keywords (lower transcript)) as [[k a]|].
  - destruct a; reflexivity.
  - cbn [listening_mode set_last_speech_text].
    destruct (listening_mode self); [|reflexivity].
    unfold trigger_dictation. destruct (Qlt_bool _ _); [reflexivity|].
    destruct run; reflexivity.
Qed.

(** X17.  After any sequence of calls, [last_speech_text] is the
    lower-cased transcript of the latest call in which the recogniser
    returned a text, whatever that call went on to do (a command, the
    fallback, a debounced or failed fallback, nothing); calls in which
    the recogniser raised leave it alone.  If it was in lower case
    before, it is in lower case after. *)
Theorem last_speech_text_is_latest_transcript : forall calls self,
  last_speech_text (fst (listen_all self calls))
  = match latest_transcript calls with
    | Some transcript => lower transcript
    | None => last_speech_text self
    end /\
  (lower (last_speech_text self) = last_speech_text self ->
   lower (last_speech_text (fst (listen_all self calls)))
   = last_speech_text (fst (listen_all self calls))).
Proof.
  assert (H : forall calls self,
    last_speech_text (fst (listen_all self calls))
    = match latest_transcript calls with
      | Some transcript => lower transcript
      | None => last_speech_text self
      end).
  { induction calls as [|[[recognized current_time] run] rest IH];
      intros self; [reflexivity|].
    cbn [listen_all latest_transcript].
    pose proof (listen_for_keywords_last_speech_text self recognized
                  current_time run) as Hstep.
    specialize (IH (fst (listen_for_keywords self recognized current_time
                           run))).
    destruct (listen_for_keywords self recognized current_time run)
      as [self1 events].
    cbn [fst] in *.
    destruct (listen_all self1 rest) as [self2 later]. cbn [fst] in *.
    rewrite IH.
    destruct (latest_transcript rest); [reflexivity|].
    rewrite Hstep. destruct recognized; reflexivity. }
  intros calls self. split; [apply H|].
  intros Hlow. rewrite H.
  destruct (latest_transcript calls); [apply lower_idempotent|exact Hlow].
Qed.
